(** * 01-oop-review.js: the object model of the quiz-game users

    The source is a tutorial script that builds "user" objects in four
    successive styles (object literals, a factory with closures, a factory
    with a shared prototype, constructors with [new] and the [class]
    sugar), and then specialises them into "paid users".

    The embedding follows the script: a heap of objects, each with its own
    properties and one [[Prototype]] link; property reads that walk the
    link; assignments that write the receiver's own property; the accessor
    [__proto__] that every object linked to [Object.prototype] inherits,
    which reads and sets the link itself; method calls that bind [this] to
    the object left of the dot; [.call] that binds it to an explicit
    receiver; [Object.create], [Object.setPrototypeOf] and [new].  Every
    function body of the script is one constructor of [func], and [Call]
    gives each of them its meaning as a state transformer.

    The script redeclares its names from one section to the next, so each
    section is read on its own: one [Module] per section, with the names of
    the script.  It is a classic script without a strict-mode directive:
    its functions are non-strict, except the methods of the [class].

    Numbers: a number of the script is a double.  The fields the script
    counts with ([score], [accountBalance], [num]) hold integers: [Int z] is
    the double whose value is the integer [z], and [x++] adds one and rounds
    to the nearest double, so that counting is exact up to 2^53 and stops
    there.  [NaN] is kept because the script can produce it, by incrementing
    a field that is not there.  Fractions and infinities have no value
    here.  Conversions that need string parsing, the printing of an integer
    beyond 2^53, and the boxing of a primitive are outside the fragment and
    give [Stuck]. *)

From Stdlib Require Import ZArith Lia.
From Stdlib Require Floats.SpecFloat.
From stdpp Require Import base tactics option list gmap strings pretty fin_maps.

Local Abbreviation length := List.length.

(** ** Values, objects, states *)

Module JS.

Definition loc := positive.

(** The function bodies of the script.  A function that mentions a variable
    bound to an object carries that object's location (its closure). *)
Inductive func : Type :=
  | increment_closure (owner : loc)
      (* function () { user1.score++; }    lines 24-26, 57-59, 66-68
         function () { newUser.score++; }  lines 82-84 *)
  | increment
      (* function () { this.score++; }
         lines 118-120, 162-164, 206-208, 235-237, 387-389, 447-449 *)
  | increment_class
      (* increment() { this.score++; }  lines 319-321, strict (class body) *)
  | login (msg : string)
      (* function () { console.log(msg); }
         lines 121-123, 165-167, 239-241, 274-276, 296-298, 322-324 *)
  | sayName
      (* function () { console.log('I am ' + this.name); }
         lines 384-386, 443-445 *)
  | increaseBalance
      (* function () { this.accountBalance++; }  lines 403-405, 463-465 *)
  | num_increment
      (* function () { this.num++; }  lines 419-421 *)
  | increment_add1_plain
      (* function () { function add1() { this.score++; } add1(); }
         lines 267-272 *)
  | add1_plain
      (* function add1() { this.score++; }  lines 268-270 *)
  | increment_add1_arrow
      (* function () { const add1 = () => { this.score++; }; add1(); }
         lines 289-294 *)
  | add1_arrow (lexical_this : loc)
      (* () => { this.score++; }  lines 290-292, [this] of the enclosing call *)
  | ctor (name : string)
      (* a constructor function seen as a value (F.prototype.constructor);
         its body is the definition of the same name below *)
  | native (name : string).
      (* a built-in of the host, such as Object.prototype.hasOwnProperty *)

Inductive number : Type :=
  | Int (z : Z)
  | NaN.

Inductive value : Type :=
  | VUndef
  | VNull
  | VNum (x : number)
  | VStr (s : string)
  | VObj (l : loc)
  | VFun (f : func).

(** An ordinary object: its own data properties and its [[Prototype]]. *)
Record obj : Type := Obj {
  props : gmap string value;
  proto : option loc
}.

Record state : Type := State {
  heap : gmap loc obj;
  console : list string
}.

Inductive type_error : Type :=
  | NotAFunction (name : string)   (* "e.name is not a function" *)
  | UndefinedReceiver              (* "Cannot read properties of undefined" *)
  | CyclicProto.                   (* a link that is refused:
                                      "Cyclic __proto__ value" *)

Inductive exn : Type :=
  | TypeError (why : type_error)
  | ReferenceError (name : string). (* "name is not defined" *)

(** Outcome of running a piece of the script.  [Diverge] is a prototype walk
    that does not end (only possible on a cyclic heap); [Stuck] is a step
    outside the fragment. *)
Inductive result (A : Type) : Type :=
  | Ok (a : A) (s : state)
  | Throw (e : exn) (s : state)
  | Diverge
  | Stuck.

Arguments Ok {A} a s.
Arguments Throw {A} e s.
Arguments Diverge {A}.
Arguments Stuck {A}.

Definition M (A : Type) : Type := state → result A.

Definition ret {A} (a : A) : M A := λ s, Ok a s.

Definition bind {A B} (m : M A) (k : A → M B) : M B :=
  λ s, match m s with
       | Ok a s' => k a s'
       | Throw e s' => Throw e s'
       | Diverge => Diverge
       | Stuck => Stuck
       end.

Definition throw {A} (e : exn) : M A := λ s, Throw e s.
Definition stuck {A} : M A := λ _, Stuck.

#[global] Instance M_ret : MRet M := @ret.
#[global] Instance M_bind : MBind M := λ A B k m, bind m k.

(** ** The realm: Object.prototype and the global object

    [Object.prototype] carries the built-in functions of the host under
    their names; none of them is run here.  Its one accessor property,
    [__proto__], is not a stored value: reading it and assigning to it are
    part of [Get] and [Put] below.  The global object is there as the [this]
    of a bare call of a non-strict function; the host's globals are not
    listed on it (none of them is called [score]). *)

Definition object_prototype : loc := 1%positive.
Definition global_object : loc := 2%positive.

Definition object_prototype_names : list string :=
  [ "constructor"; "hasOwnProperty"; "isPrototypeOf"; "propertyIsEnumerable";
    "toLocaleString"; "toString"; "valueOf";
    "__defineGetter__"; "__defineSetter__"; "__lookupGetter__";
    "__lookupSetter__" ].

Definition initial_heap : gmap loc obj :=
  <[ global_object := Obj ∅ (Some object_prototype) ]>
  (<[ object_prototype :=
        Obj (list_to_map ((λ n, (n, VFun (native n))) <$> object_prototype_names))
            None ]> ∅).

Definition initial : state := State initial_heap [].

(** ** Property access *)

(** The walk of [[Get]] over the data properties: own property first, then
    the prototype, and so on.  One unit of fuel per object visited. *)
Fixpoint get_fuel (k : nat) (h : gmap loc obj) (l : loc) (n : string)
  : option value :=
  match k with
  | O => None
  | S k' =>
      match h !! l with
      | None => Some VUndef
      | Some o =>
          match props o !! n with
          | Some v => Some v
          | None =>
              match proto o with
              | None => Some VUndef
              | Some p => get_fuel k' h p n
              end
          end
      end
  end.

Definition lookup_chain (h : gmap loc obj) (l : loc) (n : string) : option value :=
  get_fuel (S (size h)) h l n.

(** The same walk for the name [__proto__]: does it reach the accessor of
    [Object.prototype] before any object that stores a data property of that
    name? *)
Fixpoint accessor_fuel (k : nat) (h : gmap loc obj) (l : loc) : option bool :=
  match k with
  | O => None
  | S k' =>
      match h !! l with
      | None => Some false
      | Some o =>
          match props o !! "__proto__" with
          | Some _ => Some false
          | None =>
              if decide (l = object_prototype) then Some true
              else match proto o with
                   | None => Some false
                   | Some p => accessor_fuel k' h p
                   end
          end
      end
  end.

Definition inherits_accessor (h : gmap loc obj) (l : loc) : option bool :=
  accessor_fuel (S (size h)) h l.

(** A [[Prototype]] as a value: an object or [null]. *)
Definition link_value (p : option loc) : value :=
  match p with
  | Some q => VObj q
  | None => VNull
  end.

(** [[Get]].  The getter of [__proto__] answers with the [[Prototype]] of
    the object the read started from. *)
Definition Get (l : loc) (n : string) : M value :=
  λ s, match lookup_chain (heap s) l n with
       | None => Diverge
       | Some v =>
           if String.eqb n "__proto__" then
             match inherits_accessor (heap s) l with
             | None => Diverge
             | Some true => Ok (link_value (heap s !! l ≫= proto)) s
             | Some false => Ok v s
             end
           else Ok v s
       end.

(** ** Prototype surgery *)

(** The loop of OrdinarySetPrototypeOf: does the chain that starts at [p]
    pass through [o]? *)
Fixpoint reaches_fuel (k : nat) (h : gmap loc obj) (p : option loc) (o : loc)
  : option bool :=
  match k with
  | O => None
  | S k' =>
      match p with
      | None => Some false
      | Some q =>
          if decide (q = o) then Some true
          else match h !! q with
               | None => Some false
               | Some ob => reaches_fuel k' h (proto ob) o
               end
      end
  end.

Definition set_proto (p : option loc) (o : obj) : obj := Obj (props o) p.

(** [Object.setPrototypeOf(o, p)] (every object of the script is
    extensible).  A request for the link the object already has is accepted.
    Any other is refused when [o] is [Object.prototype], whose [[Prototype]]
    the host keeps immutable, and when the chain of [p] passes through [o].
    The host has one outcome for a refused link, whatever the reason: its
    TypeError, and no change. *)
Definition Object_setPrototypeOf (o : loc) (p : option loc) : M value :=
  λ s, match heap s !! o with
       | None => Stuck
       | Some ob =>
           if decide (proto ob = p) then Ok (VObj o) s
           else if decide (o = object_prototype)
           then Throw (TypeError CyclicProto) s
           else match reaches_fuel (S (S (size (heap s)))) (heap s) p o with
                | None => Diverge
                | Some true => Throw (TypeError CyclicProto) s
                | Some false =>
                    Ok (VObj o)
                       (State (alter (set_proto p) o (heap s)) (console s))
                end
       end.

(** ** Assignment *)

Definition set_own (n : string) (v : value) (o : obj) : obj :=
  Obj (<[ n := v ]> (props o)) (proto o).

(** The receiver's own data property is written. *)
Definition write_own (l : loc) (n : string) (v : value) : M unit :=
  λ s, match heap s !! l with
       | Some _ => Ok tt (State (alter (set_own n v) l (heap s)) (console s))
       | None => Stuck
       end.

(** The setter of [__proto__]: an object or [null] on the right is a request
    to relink the receiver, a TypeError when refused; anything else is
    ignored.  (A function on the right is an object the heap does not hold.) *)
Definition set_proto_accessor (l : loc) (v : value) : M unit :=
  match v with
  | VObj q =>
      λ s, match heap s !! q with
           | Some _ => (Object_setPrototypeOf l (Some q);; mret tt) s
           | None => Stuck
           end
  | VNull => Object_setPrototypeOf l None;; mret tt
  | VFun _ => stuck
  | VUndef | VNum _ | VStr _ => mret tt
  end.

(** [[Set]].  The script has no read-only properties and one setter, the one
    every object linked to [Object.prototype] inherits for [__proto__]; any
    other assignment writes the receiver's own property. *)
Definition Put (l : loc) (n : string) (v : value) : M unit :=
  λ s, if String.eqb n "__proto__" then
         match inherits_accessor (heap s) l with
         | None => Diverge
         | Some true => set_proto_accessor l v s
         | Some false => write_own l n v s
         end
       else write_own l n v s.

(** Allocation at a fresh location, different from every object there is
    and from the two objects of the realm; the new object may mention itself
    (a literal whose function closes over the variable being declared). *)
Definition alloc_rec (mk : loc → obj) : M loc :=
  λ s, let l := fresh ({[ object_prototype; global_object ]} ∪ dom (heap s)) in
       Ok l (State (<[ l := mk l ]> (heap s)) (console s)).

Definition alloc (o : obj) : M loc := alloc_rec (λ _, o).

(** [{ n1: v1, ... }] *)
Definition object_literal (ps : gmap string value) : M loc :=
  alloc (Obj ps (Some object_prototype)).

(** [Object.create(p)] *)
Definition Object_create (p : option loc) : M loc :=
  alloc (Obj ∅ p).

(** ** Numbers and strings *)

Definition to_number (v : value) : option number :=
  match v with
  | VUndef => Some NaN
  | VNull => Some (Int 0)
  | VNum x => Some x
  | VFun _ => Some NaN
  | VStr _ | VObj _ => None
  end.

(** The double nearest to the integer [m]: [m] itself when it fits in the 53
    bits of the significand, otherwise the nearest multiple of the power of
    two that leaves 53 bits, a tie going to the even one. *)
Definition round_double (m : Z) : Z :=
  let a := Z.abs m in
  if (a <? 2 ^ 53)%Z then m
  else
    let e := (Z.log2 a - 52)%Z in
    let q := (a / 2 ^ e)%Z in
    let r := (a mod 2 ^ e)%Z in
    let q' := match (2 * r ?= 2 ^ e)%Z with
              | Lt => q
              | Gt => (q + 1)%Z
              | Eq => if Z.even q then q else (q + 1)%Z
              end in
    (Z.sgn m * (q' * 2 ^ e))%Z.

Arguments round_double : simpl never.

(** [x + 1] on doubles. *)
Definition add1 (x : number) : number :=
  match x with
  | Int z => Int (round_double (z + 1))
  | NaN => NaN
  end.

(** [base.field++] *)
Definition postfix_incr (base : loc) (field : string) : M value :=
  v ← Get base field;
  match to_number v with
  | Some x => Put base field (VNum (add1 x));; mret (VNum x)
  | None => stuck
  end.

(** ToString.  An integer up to 2^53 prints as its decimal digits; beyond,
    a double prints the shortest digits that read back as itself, which is
    outside the fragment. *)
Definition to_string (v : value) : option string :=
  match v with
  | VUndef => Some "undefined"
  | VNull => Some "null"
  | VNum (Int z) =>
      if (Z.abs z <=? 2 ^ 53)%Z then Some (pretty z) else None
  | VNum NaN => Some "NaN"
  | VStr s => Some s
  | VObj _ | VFun _ => None
  end.

Definition console_log (msg : string) : M unit :=
  λ s, Ok tt (State (heap s) (console s ++ [msg])).

(** ** Calling functions *)

(** [this] inside a non-strict function: an undefined or null receiver
    becomes the global object. *)
Definition sloppy_this (t : value) : M loc :=
  match t with
  | VObj l => mret l
  | VUndef | VNull => mret global_object
  | _ => stuck
  end.

(** [this] inside a strict function, at a property access. *)
Definition strict_this (t : value) : M loc :=
  match t with
  | VObj l => mret l
  | VUndef | VNull => throw (TypeError UndefinedReceiver)
  | _ => stuck
  end.

(** Bodies that call no other function. *)
Definition call_leaf (f : func) (this : value) : M value :=
  match f with
  | increment_closure owner => postfix_incr owner "score";; mret VUndef
  | increment => l ← sloppy_this this; postfix_incr l "score";; mret VUndef
  | increment_class => l ← strict_this this; postfix_incr l "score";; mret VUndef
  | login msg => console_log msg;; mret VUndef
  | sayName =>
      l ← sloppy_this this;
      v ← Get l "name";
      match to_string v with
      | Some s => console_log ("I am " +:+ s);; mret VUndef
      | None => stuck
      end
  | increaseBalance =>
      l ← sloppy_this this; postfix_incr l "accountBalance";; mret VUndef
  | num_increment => l ← sloppy_this this; postfix_incr l "num";; mret VUndef
  | add1_plain => l ← sloppy_this this; postfix_incr l "score";; mret VUndef
  | add1_arrow l => postfix_incr l "score";; mret VUndef
  | increment_add1_plain | increment_add1_arrow | ctor _ | native _ => stuck
  end.

(** [Call f this]: run the body of [f] with the given [this]. *)
Definition Call (f : func) (this : value) : M value :=
  match f with
  | increment_add1_plain =>
      (* add1(); : a bare call, no receiver *)
      call_leaf add1_plain VUndef;; mret VUndef
  | increment_add1_arrow =>
      (* the arrow function closes over the [this] of this call *)
      l ← sloppy_this this; call_leaf (add1_arrow l) VUndef;; mret VUndef
  | _ => call_leaf f this
  end.

(** [recv.n()]: the [invoke(recv, n)] of the specification. *)
Definition call_method (recv : loc) (n : string) : M value :=
  f ← Get recv n;
  match f with
  | VFun g => Call g (VObj recv)
  | _ => throw (TypeError (NotAFunction n))
  end.

(** [holder.n.call(thisArg)]: the [invokeWith(holder, n, thisArg)] of the
    specification. *)
Definition Function_call (holder : loc) (n : string) (thisArg : value) : M value :=
  f ← Get holder n;
  match f with
  | VFun g => Call g thisArg
  | VUndef | VNull => throw (TypeError UndefinedReceiver)
  | VNum _ | VStr _ => throw (TypeError (NotAFunction "call"))
  | VObj _ => stuck
  end.

(** ** [new] *)

(** [new F(...)]: a fresh object linked to [F.prototype], the body run with
    it as [this]; the object is the result unless the body returns one. *)
Definition construct (prototype : loc) (body : value → M value) : M loc :=
  o ← alloc (Obj ∅ (Some prototype));
  r ← body (VObj o);
  match r with
  | VObj l => mret l
  | VFun _ => stuck
  | _ => mret o
  end.

(** [F.prototype] of a freshly declared function or class [F]. *)
Definition function_prototype (name : string) : M loc :=
  object_literal {[ "constructor" := VFun (ctor name) ]}.

End JS.

Import JS.

(** ** The script, section by section *)

(** Lines 21-68: three hand-built users. *)
Module Encapsulation.

(* const user1 = { name: 'Phil', score: 4,
                   increment: function () { user1.score++; } };   21-27 *)
Definition user1 : M loc :=
  alloc_rec (λ self,
    Obj {[ "name" := VStr "Phil"; "score" := VNum (Int 4);
           "increment" := VFun (increment_closure self) ]}
        (Some object_prototype)).

(* const user2 = {}; user2.name = 'Julia'; user2.score = 5;
   user2.increment = function () { user2.score++; };              54-59 *)
Definition user2 : M loc :=
  u ← object_literal ∅;
  Put u "name" (VStr "Julia");;
  Put u "score" (VNum (Int 5));;
  Put u "increment" (VFun (increment_closure u));;
  mret u.

(* const user3 = Object.create(null); ...                         63-68 *)
Definition user3 : M loc :=
  u ← Object_create None;
  Put u "name" (VStr "Eva");;
  Put u "score" (VNum (Int 9));;
  Put u "increment" (VFun (increment_closure u));;
  mret u.

(* lines 21-29 *)
Definition main : M loc :=
  u ← user1;
  call_method u "increment";;
  mret u.

End Encapsulation.

(** Lines 76-90: Solution 1, a factory whose objects carry their own
    function. *)
Module Solution1.

(* function userCreator(name, score) { ... }                      78-86 *)
Definition userCreator (name score : value) : M loc :=
  newUser ← object_literal ∅;
  Put newUser "name" name;;
  Put newUser "score" score;;
  Put newUser "increment" (VFun (increment_closure newUser));;
  mret newUser.

(* lines 88-90 *)
Definition main : M (loc * loc) :=
  user1 ← userCreator (VStr "Phil") (VNum (Int 4));
  user2 ← userCreator (VStr "Julia") (VNum (Int 5));
  call_method user1 "increment";;
  mret (user1, user2).

End Solution1.

(** Lines 115-172: Solution 2, the functions kept once in a store that the
    users are linked to. *)
Module Solution2.

(* const functionScore = { increment: ..., login: ... };          117-124 *)
Definition functionScore : M loc :=
  object_literal {[ "increment" := VFun increment;
                    "login" := VFun (login "You are logged in") ]}.

(* const user1 = { name: 'Phil', score: 4 };                      126-129 *)
Definition user1_unlinked : M loc :=
  object_literal {[ "name" := VStr "Phil"; "score" := VNum (Int 4) ]}.

(* const user1 = Object.create(functionScore);                    141 *)
Definition user1_linked (functionScore : loc) : M loc :=
  Object_create (Some functionScore).

(* lines 117-144: what [user1.increment] reads before and after the link *)
Definition main_link : M (value * value) :=
  store ← functionScore;
  user1 ← user1_unlinked;
  Get user1 "name";;
  before ← Get user1 "increment";
  user1 ← user1_linked store;
  after ← Get user1 "increment";
  mret (before, after).

(* const userFunctionStore = { increment: ..., login: ... };      161-168 *)
Definition userFunctionStore : M loc :=
  object_literal {[ "increment" := VFun increment;
                    "login" := VFun (login "You are logged!") ]}.

(* function userCreator(name, score) { ... }                      154-159 *)
Definition userCreator (userFunctionStore : loc) (name score : value) : M loc :=
  newUser ← Object_create (Some userFunctionStore);
  Put newUser "name" name;;
  Put newUser "score" score;;
  mret newUser.

(* lines 161-172 *)
Definition main : M (loc * loc * loc) :=
  store ← userFunctionStore;
  user1 ← userCreator store (VStr "Phil") (VNum (Int 4));
  user2 ← userCreator store (VStr "Julia") (VNum (Int 5));
  call_method user1 "increment";;
  mret (store, user1, user2).

End Solution2.

(** Lines 185-244: Solution 3, [new] and the constructor's [prototype]. *)
Module Solution3.

(* function userCreator(name, score) { this.name = name; this.score = score; } *)
Definition userCreator (this name score : value) : M value :=
  l ← sloppy_this this;
  Put l "name" name;;
  Put l "score" score;;
  mret VUndef.

(* userCreator.prototype.increment = ...; userCreator.prototype.login = ...;
   lines 235-241 *)
Definition userCreator_prototype : M loc :=
  p ← function_prototype "userCreator";
  Put p "increment" (VFun increment);;
  Put p "login" (VFun (login "Logged in"));;
  mret p.

Definition new_userCreator (prototype : loc) (name score : value) : M loc :=
  construct prototype (λ this, userCreator this name score).

(* lines 230-244 *)
Definition main : M (loc * loc) :=
  p ← userCreator_prototype;
  user1 ← new_userCreator p (VStr "Eva") (VNum (Int 9));
  call_method user1 "increment";;
  mret (p, user1).

End Solution3.

(** Lines 256-301: the shared function organised around an inner function,
    first a plain one, then an arrow function.  (The first version spells
    its constructor [userCreator] at lines 262 and 278 and [UserCreator] at
    lines 267 and 274; one constructor is meant.) *)
Module InnerFunction.

Definition UserCreator (this name score : value) : M value :=
  l ← sloppy_this this;
  Put l "name" name;;
  Put l "score" score;;
  mret VUndef.

(* lines 267-276 *)
Definition UserCreator_prototype_plain : M loc :=
  p ← function_prototype "UserCreator";
  Put p "increment" (VFun increment_add1_plain);;
  Put p "login" (VFun (login "Login"));;
  mret p.

(* lines 289-298 *)
Definition UserCreator_prototype_arrow : M loc :=
  p ← function_prototype "UserCreator";
  Put p "increment" (VFun increment_add1_arrow);;
  Put p "login" (VFun (login "Login"));;
  mret p.

Definition new_UserCreator (prototype : loc) (name score : value) : M loc :=
  construct prototype (λ this, UserCreator this name score).

(* lines 262-280 *)
Definition main_plain : M (loc * loc) :=
  p ← UserCreator_prototype_plain;
  user1 ← new_UserCreator p (VStr "Eva") (VNum (Int 9));
  call_method user1 "increment";;
  mret (p, user1).

(* lines 284-301 *)
Definition main_arrow : M (loc * loc) :=
  p ← UserCreator_prototype_arrow;
  user1 ← new_UserCreator p (VStr "Eva") (VNum (Int 9));
  call_method user1 "increment";;
  mret (p, user1).

End InnerFunction.

(** Lines 312-329: Solution 4, the [class] sugar. *)
Module Solution4.

(* constructor(name, score) { this.name = name; this.score = score; } *)
Definition UserCreator (this name score : value) : M value :=
  l ← strict_this this;
  Put l "name" name;;
  Put l "score" score;;
  mret VUndef.

Definition UserCreator_prototype : M loc :=
  p ← function_prototype "UserCreator";
  Put p "increment" (VFun increment_class);;
  Put p "login" (VFun (login "Login"));;
  mret p.

Definition new_UserCreator (prototype : loc) (name score : value) : M loc :=
  construct prototype (λ this, UserCreator this name score).

(* lines 314-329 *)
Definition main : M (loc * loc) :=
  p ← UserCreator_prototype;
  user1 ← new_UserCreator p (VStr "Eva") (VNum (Int 9));
  call_method user1 "increment";;
  mret (p, user1).

End Solution4.

(** Lines 375-412: subclassing in the style of Solution 2. *)
Module Subclassing2.

(* function userCreator(name, score) { ... }                      377-382 *)
Definition userCreator (userFunctions : loc) (name score : value) : M loc :=
  newUser ← Object_create (Some userFunctions);
  Put newUser "name" name;;
  Put newUser "score" score;;
  mret newUser.

(* userFunctions = { sayName: ..., increment: ... };              383-390 *)
Definition userFunctions_literal : M loc :=
  object_literal {[ "sayName" := VFun sayName;
                    "increment" := VFun increment ]}.

(* function paidUserCreator(paidName, paidScore, accountBalance)  395-400
   The second statement names [newUserpaid], which no scope binds: reading
   it throws before [Object.setPrototypeOf] is entered. *)
Definition paidUserCreator (userFunctions paidUserFunctions : loc)
    (paidName paidScore accountBalance : value) : M loc :=
  newPaidUser ← userCreator userFunctions paidName paidScore;
  (throw (ReferenceError "newUserpaid") : M value);;
  Put newPaidUser "accountBalance" accountBalance;;
  mret newPaidUser.

(* const paidUserFunctions = { increaseBalance: ... };            402-406 *)
Definition paidUserFunctions_literal : M loc :=
  object_literal {[ "increaseBalance" := VFun increaseBalance ]}.

(** Lines 383-408 in the order of the script: the base behaviour object, a
    base user who says his name, the paid behaviour object and its link. *)
Definition upto_408 : M (loc * loc) :=
  userFunctions ← userFunctions_literal;
  user1 ← userCreator userFunctions (VStr "Phil") (VNum (Int 5));
  call_method user1 "sayName";;
  paidUserFunctions ← paidUserFunctions_literal;
  Object_setPrototypeOf paidUserFunctions (Some userFunctions);;
  mret (userFunctions, paidUserFunctions).

(** Lines 383-412. *)
Definition main : M loc :=
  '(userFunctions, paidUserFunctions) ← upto_408;
  paidUser1 ← paidUserCreator userFunctions paidUserFunctions
                 (VStr "Alyssa") (VNum (Int 8)) (VNum (Int 25));
  (* paidUser1, increaseBalance();   line 411: a bare call of an unbound name *)
  (throw (ReferenceError "increaseBalance") : M value);;
  call_method paidUser1 "sayName";;
  mret paidUser1.

End Subclassing2.

(** Lines 414-428: choosing [this] with [.call]. *)
Module Interlude.

(* const obj = { num: 3, increment: function () { this.num++; } }; *)
Definition obj : M loc :=
  object_literal {[ "num" := VNum (Int 3);
                    "increment" := VFun num_increment ]}.

(* const otherObj = { num: 10 }; *)
Definition otherObj : M loc :=
  object_literal {[ "num" := VNum (Int 10) ]}.

(* lines 417-427 *)
Definition main : M (loc * loc) :=
  o ← obj;
  other ← otherObj;
  call_method o "increment";;
  Function_call o "increment" (VObj other);;
  mret (o, other).

End Interlude.

(** Lines 436-470: subclassing in the style of Solution 3. *)
Module Subclassing3.

(* function userCreator(name, score) { ... }                      439-442 *)
Definition userCreator (this name score : value) : M value :=
  l ← sloppy_this this;
  Put l "name" name;;
  Put l "score" score;;
  mret VUndef.

(* function paidUserCreator(paidName, paidScore, accountBalance)  455-459 *)
Definition paidUserCreator (this paidName paidScore accountBalance : value)
  : M value :=
  userCreator this paidName paidScore;;
  l ← sloppy_this this;
  Put l "accountBalance" accountBalance;;
  mret VUndef.

(* new userCreator(name, score) *)
Definition new_userCreator (userCreator_prototype : loc) (name score : value)
  : M loc :=
  construct userCreator_prototype (λ this, userCreator this name score).

(* new paidUserCreator(paidName, paidScore, accountBalance) *)
Definition new_paidUserCreator (paidUserCreator_prototype : loc)
    (paidName paidScore accountBalance : value) : M loc :=
  construct paidUserCreator_prototype
            (λ this, paidUserCreator this paidName paidScore accountBalance).

(** Lines 439-467 in the order of the script.  Both functions are declared,
    each with its default [prototype], before the first statement runs;
    lines 443-449 fill [userCreator.prototype]; line 461 replaces
    [paidUserCreator.prototype] by an object linked to it; lines 463-465 add
    [increaseBalance]; line 467 makes the paid user. *)
Definition upto_467 : M loc :=
  userCreator_prototype ← function_prototype "userCreator";
  function_prototype "paidUserCreator";;
  Put userCreator_prototype "sayName" (VFun sayName);;
  Put userCreator_prototype "increment" (VFun increment);;
  user1 ← new_userCreator userCreator_prototype (VStr "Phil") (VNum (Int 5));
  user2 ← new_userCreator userCreator_prototype (VStr "Tim") (VNum (Int 4));
  call_method user1 "sayName";;
  paidUserCreator_prototype ← Object_create (Some userCreator_prototype);
  Put paidUserCreator_prototype "increaseBalance" (VFun increaseBalance);;
  new_paidUserCreator paidUserCreator_prototype
    (VStr "Alyssa") (VNum (Int 8)) (VNum (Int 25)).

(** Lines 439-470. *)
Definition main : M loc :=
  paidUser1 ← upto_467;
  (* paidUser1, increaseBalance();   line 469: a bare call of an unbound name *)
  (throw (ReferenceError "increaseBalance") : M value);;
  call_method paidUser1 "sayName";;
  mret paidUser1.

End Subclassing3.

(** Lines 340-357: the link every object has by default. *)
Module DefaultLink.

(** [recv.hasOwnProperty(key)] (line 349): the name [hasOwnProperty] is looked
    up on [recv] like any other; the built-in found on [Object.prototype]
    answers from the own properties of its receiver alone (the accessor
    [__proto__] is an own property of [Object.prototype]). *)
Definition call_hasOwnProperty (recv : loc) (key : string) : M bool :=
  f ← Get recv "hasOwnProperty";
  match f with
  | VFun (native nm) =>
      if String.eqb nm "hasOwnProperty" then
        λ s, match heap s !! recv with
             | Some o =>
                 Ok (bool_decide (is_Some (props o !! key)
                                  ∨ (recv = object_prototype ∧ key = "__proto__")))
                    s
             | None => Stuck
             end
      else stuck
  | VFun _ => stuck
  | _ => throw (TypeError (NotAFunction "hasOwnProperty"))
  end.

(* const obj = { num: 3 };                                        345-347 *)
Definition obj : M loc :=
  object_literal {[ "num" := VNum (Int 3) ]}.

(* obj.num; obj.hasOwnProperty('num');                            348-349 *)
Definition main : M (value * bool) :=
  o ← obj;
  n ← Get o "num";
  b ← call_hasOwnProperty o "num";
  mret (n, b).

End DefaultLink.

(** ** Reading a state *)

Definition own_prop (s : state) (l : loc) (n : string) : option value :=
  o ← heap s !! l; props o !! n.

Definition proto_of (s : state) (l : loc) : option (option loc) :=
  proto <$> heap s !! l.

Definition run {A} (m : M A) : result A := m initial.

(** [with_field s l n v]: the state [s] with the own property [n] of [l]
    set to [v] and nothing else touched. *)
Definition with_field (s : state) (l : loc) (n : string) (v : value) : state :=
  State (alter (set_own n v) l (heap s)) (console s).

(** [e.n(); e.n(); ...], [k] times. *)
Fixpoint invoke_n (e : loc) (n : string) (k : nat) : M unit :=
  match k with
  | O => mret tt
  | S k' => call_method e n;; invoke_n e n k'
  end.

(** ** The resolution order as the specification words it

    The levels consulted for an entity, in order: the entity, the object it
    is linked to, that object's parent, and so on up to the first missing
    link. *)
Fixpoint chain_fuel (k : nat) (h : gmap loc obj) (p : option loc)
  : option (list loc) :=
  match p with
  | None => Some []
  | Some l =>
      match k with
      | O => None
      | S k' =>
          match h !! l with
          | None => None
          | Some o => (l ::.) <$> chain_fuel k' h (proto o)
          end
      end
  end.

Definition resolution_chain (h : gmap loc obj) (p : option loc)
  : option (list loc) :=
  chain_fuel (size h) h p.

(** The first level of [ls] that stores something under [n]. *)
Definition first_defined (h : gmap loc obj) (ls : list loc) (n : string)
  : option value :=
  head (omap (λ l, o ← h !! l; props o !! n) ls).

(** Along the levels [ls], in order: is [Object.prototype], which holds the
    accessor [__proto__], met before any level that stores a data property
    of that name? *)
Fixpoint chain_accessor (h : gmap loc obj) (ls : list loc) : bool :=
  match ls with
  | [] => false
  | l :: ls' =>
      match h !! l ≫= (λ o, props o !! "__proto__") with
      | Some _ => false
      | None =>
          if decide (l = object_prototype) then true else chain_accessor h ls'
      end
  end.

(** What a read of [n] on [e] answers, given the levels [ls] of the chain of
    [e]: what the first level that stores [n] holds, [undefined] when none
    does; and for [__proto__], when the accessor comes first, the link of
    [e]. *)
Definition resolved (h : gmap loc obj) (e : loc) (ls : list loc) (n : string)
  : value :=
  if String.eqb n "__proto__" && chain_accessor h ls
  then link_value (h !! e ≫= proto)
  else default VUndef (first_defined h ls n).

(** Every object's chain of links ends. *)
Definition acyclic (h : gmap loc obj) : Prop :=
  map_Forall (λ l _, is_Some (resolution_chain h (Some l))) h.

(** The chain as a relation, for induction. *)
Inductive chain_of (h : gmap loc obj) : option loc → list loc → Prop :=
  | chain_end : chain_of h None []
  | chain_link l o ls :
      h !! l = Some o →
      chain_of h (proto o) ls →
      chain_of h (Some l) (l :: ls).

(** ** Notions used in the statements *)

(** The operations an object stores: its function-valued own properties. *)
Definition ops_of (o : obj) : gmap string func :=
  omap (λ v, match v with VFun f => Some f | _ => None end) (props o).

(** The fields the functions of the script write. *)
Definition counted_fields : list string := ["score"; "accountBalance"; "num"].

(** What one call of a function of the script may do to the state. *)
Inductive footprint (s : state) : state → Prop :=
  | fp_none : footprint s s
  | fp_field l n x :
      n ∈ counted_fields →
      is_Some (heap s !! l) →
      footprint s (with_field s l n (VNum x))
  | fp_log msg : footprint s (State (heap s) (console s ++ [msg])).

(** The functions that do [this.fld++] on their receiver (directly, or
    through the arrow function), with the field they count. *)
Definition this_counter (f : func) : option string :=
  match f with
  | increment | increment_class | add1_plain | increment_add1_arrow => Some "score"
  | increaseBalance => Some "accountBalance"
  | num_increment => Some "num"
  | _ => None
  end.

(** The [increment] of a base user: the shared [this.score++] (directly or
    through the arrow function), or the user's own closure over itself. *)
Definition base_increment (e : loc) (f : func) : bool :=
  match f with
  | increment | increment_class | increment_add1_arrow => true
  | increment_closure owner => bool_decide (owner = e)
  | _ => false
  end.

(** The state [s] with a new object [o] at the next free location. *)
Definition next_loc (s : state) : loc :=
  fresh ({[ object_prototype; global_object ]} ∪ dom (heap s)).

Definition with_new (s : state) (o : obj) : state :=
  State (<[ next_loc s := o ]> (heap s)) (console s).

(** The functions of the script whose body calls an inner function. *)
Definition nests (f : func) : bool :=
  match f with
  | increment_add1_plain | increment_add1_arrow => true
  | _ => false
  end.

(** [o] stores no operation under the name of a counted field. *)
Definition keeps_no_counter (o : obj) : bool :=
  forallb (λ n, match props o !! n with Some (VFun _) => false | _ => true end)
          counted_fields.

(** What a run returned, or threw. *)
Definition returned {A} (r : result A) : option A :=
  match r with
  | Ok a _ => Some a
  | _ => None
  end.

Definition thrown {A} (r : result A) : option exn :=
  match r with
  | Throw e _ => Some e
  | _ => None
  end.

(** The state a run ends in (the initial state when it does not end). *)
Definition final_state {A} (r : result A) : state :=
  match r with
  | Ok _ s | Throw _ s => s
  | _ => initial
  end.

Definition within_footprint {A} (s : state) (r : result A) : Prop :=
  match r with
  | Ok _ s' => footprint s s'
  | Throw _ s' => s' = s
  | _ => True
  end.

(** [s'] is [s] with the own property [fld] of [e] now reading [v], and
    with nothing else changed: no other object, no other property of [e],
    no link, no output. *)
Definition only_field_changed (s s' : state) (e : loc) (fld : string) (v : value)
  : Prop :=
  own_prop s' e fld = Some v
  ∧ (∀ l, l ≠ e → heap s' !! l = heap s !! l)
  ∧ (∀ n, n ≠ fld → own_prop s' e n = own_prop s e n)
  ∧ (∀ l, proto_of s' l = proto_of s l)
  ∧ console s' = console s.

(** [e] counts on itself: [k] calls of [e.increment()] add [k] to the score
    [z] of [e], and one more call with [r] supplied as the receiver
    ([e.increment.call(r)]) adds one to the score of [e] again and changes
    nothing else, [r] included. *)
Definition counts_on_itself (s : state) (e : loc) (z : Z) (k : nat) (r : value)
  : Prop :=
  ∃ s1 s2,
    invoke_n e "increment" k s = Ok tt s1
    ∧ only_field_changed s s1 e "score" (VNum (Int (z + Z.of_nat k)))
    ∧ Function_call e "increment" r s1 = Ok VUndef s2
    ∧ only_field_changed s1 s2 e "score" (VNum (Int (z + Z.of_nat k + 1))).

(** ** The runs of the script

    Each section run from the initial state, with what its comments
    announce. *)

Example Encapsulation_main_run :
  let r := run Encapsulation.main in
  returned r = Some 3%positive
  ∧ own_prop (final_state r) 3%positive "score" = Some (VNum (Int 5)).
Proof. split; vm_compute; reflexivity. Qed.

Example Solution1_main_run :
  let r := run Solution1.main in
  returned r = Some (3%positive, 4%positive)
  ∧ own_prop (final_state r) 3%positive "score" = Some (VNum (Int 5))
  ∧ own_prop (final_state r) 4%positive "score" = Some (VNum (Int 5)).
Proof. split; [|split]; vm_compute; reflexivity. Qed.

(** Lines 131-132 and 144: before the link [user1.increment] is [undefined]
    (reading it is no error); after it, the function one level up. *)
Example Solution2_main_link_run :
  returned (run Solution2.main_link) = Some (VUndef, VFun increment).
Proof. vm_compute. reflexivity. Qed.

Example Solution2_main_run :
  let r := run Solution2.main in
  let store := 3%positive in
  let user1 := 4%positive in
  let user2 := 5%positive in
  returned r = Some (store, user1, user2)
  ∧ own_prop (final_state r) user1 "score" = Some (VNum (Int 5))
  ∧ own_prop (final_state r) user1 "increment" = None
  ∧ proto_of (final_state r) user1 = Some (Some store)
  ∧ proto_of (final_state r) user2 = Some (Some store).
Proof. split; [|split; [|split; [|split]]]; vm_compute; reflexivity. Qed.

Example Solution3_main_run :
  let r := run Solution3.main in
  returned r = Some (3%positive, 4%positive)
  ∧ own_prop (final_state r) 4%positive "score" = Some (VNum (Int 10)).
Proof. split; vm_compute; reflexivity. Qed.

Example InnerFunction_main_arrow_run :
  let r := run InnerFunction.main_arrow in
  returned r = Some (3%positive, 4%positive)
  ∧ own_prop (final_state r) 4%positive "score" = Some (VNum (Int 10))
  ∧ own_prop (final_state r) global_object "score" = None.
Proof. split; [|split]; vm_compute; reflexivity. Qed.

Example Solution4_main_run :
  let r := run Solution4.main in
  returned r = Some (3%positive, 4%positive)
  ∧ own_prop (final_state r) 4%positive "score" = Some (VNum (Int 10)).
Proof. split; vm_compute; reflexivity. Qed.

(** Lines 426-427: "obj.num now 4", "otherObj.num now 11". *)
Example Interlude_main_run :
  let r := run Interlude.main in
  let obj := 3%positive in
  let otherObj := 4%positive in
  returned r = Some (obj, otherObj)
  ∧ own_prop (final_state r) obj "num" = Some (VNum (Int 4))
  ∧ own_prop (final_state r) otherObj "num" = Some (VNum (Int 11)).
Proof. split; [|split]; vm_compute; reflexivity. Qed.

(** Lines 439-470 stop at line 469, [paidUser1, increaseBalance();], after
    the paid user has been made. *)
Example Subclassing3_main_run :
  let r := run Subclassing3.main in
  let paidUser1 := 8%positive in
  thrown r = Some (ReferenceError "increaseBalance")
  ∧ console (final_state r) = ["I am Phil"]
  ∧ own_prop (final_state r) paidUser1 "accountBalance" = Some (VNum (Int 25))
  ∧ own_prop (final_state r) paidUser1 "score" = Some (VNum (Int 8)).
Proof. split; [|split; [|split]]; vm_compute; reflexivity. Qed.

(** ** Chains *)

Section chains.
Implicit Types (h : gmap loc obj) (p : option loc) (ls : list loc).

Lemma chain_of_functional h p ls1 ls2 :
  chain_of h p ls1 → chain_of h p ls2 → ls1 = ls2.
Proof.
  intros H1. revert ls2.
  induction H1 as [|l o ls Hl _ IH]; intros ls2 H2; inversion H2; subst.
  - done.
  - simplify_eq. f_equal. by apply IH.
Qed.

Lemma chain_of_allocated h p ls l :
  chain_of h p ls → l ∈ ls → is_Some (h !! l).
Proof.
  induction 1 as [|l' o ls Hl _ IH]; intros Hin.
  - by apply elem_of_nil in Hin.
  - apply elem_of_cons in Hin as [->|Hin]; eauto.
Qed.

Lemma chain_of_suffix h p ls l :
  chain_of h p ls → l ∈ ls → ∃ ls', chain_of h (Some l) ls' ∧ length ls' ≤ length ls.
Proof.
  induction 1 as [|l' o ls Hl Hc IH]; intros Hin.
  - by apply elem_of_nil in Hin.
  - apply elem_of_cons in Hin as [->|Hin].
    + exists (l' :: ls). split; [by econstructor | done].
    + destruct (IH Hin) as (ls' & ? & ?). exists ls'. simpl. split; [done | lia].
Qed.

Lemma chain_of_head_fresh h l o ls :
  h !! l = Some o → chain_of h (proto o) ls → l ∉ ls.
Proof.
  intros Hl Hc Hin.
  destruct (chain_of_suffix _ _ _ _ Hc Hin) as (ls' & Hc' & Hlen).
  assert (ls' = l :: ls) as ->
    by (eapply chain_of_functional; [done | by econstructor]).
  simpl in Hlen. lia.
Qed.

Lemma chain_of_NoDup h p ls : chain_of h p ls → NoDup ls.
Proof.
  induction 1 as [|l o ls Hl Hc IH]; constructor; [|done].
  by eapply chain_of_head_fresh.
Qed.

Lemma chain_of_length h p ls : chain_of h p ls → length ls ≤ size h.
Proof.
  intros Hc. rewrite <-(size_dom (D := gset loc)).
  rewrite <-(size_list_to_set (C := gset loc) ls) by by eapply chain_of_NoDup.
  apply subseteq_size. intros l Hl%elem_of_list_to_set.
  apply elem_of_dom. by eapply chain_of_allocated.
Qed.

Lemma chain_fuel_sound k h p ls : chain_fuel k h p = Some ls → chain_of h p ls.
Proof.
  revert p ls. induction k as [|k IH]; intros [l|] ls Hk; simpl in Hk;
    simplify_eq; try constructor.
  destruct (h !! l) as [o|] eqn:Hl; [|done].
  destruct (chain_fuel k h (proto o)) as [ls'|] eqn:Hc; simplify_eq/=.
  econstructor; eauto.
Qed.

Lemma chain_fuel_complete h p ls :
  chain_of h p ls → ∀ k, length ls ≤ k → chain_fuel k h p = Some ls.
Proof.
  induction 1 as [|l o ls Hl _ IH]; intros k Hk.
  - by destruct k.
  - destruct k as [|k]; simpl in *; [lia|].
    rewrite Hl, IH by lia. done.
Qed.

Lemma resolution_chain_spec h p ls :
  resolution_chain h p = Some ls ↔ chain_of h p ls.
Proof.
  split; [apply chain_fuel_sound|].
  intros Hc. apply chain_fuel_complete; [done | by eapply chain_of_length].
Qed.

Lemma acyclic_chain h l :
  acyclic h → is_Some (h !! l) → ∃ ls, chain_of h (Some l) ls.
Proof.
  intros Hac [o Hl]. destruct (Hac l o Hl) as [ls Hls].
  exists ls. by apply resolution_chain_spec.
Qed.

Lemma acyclic_intro h :
  (∀ l, is_Some (h !! l) → ∃ ls, chain_of h (Some l) ls) → acyclic h.
Proof.
  intros H l o Hl. destruct (H l) as [ls Hls]; [by eauto|].
  exists ls. by apply resolution_chain_spec.
Qed.

(** The walk of [[Get]] visits the levels of the chain in order. *)
Lemma get_fuel_chain h n l ls :
  chain_of h (Some l) ls →
  ∀ k, length ls ≤ k →
  get_fuel k h l n = Some (default VUndef (first_defined h ls n)).
Proof.
  intros Hc. remember (Some l) as p eqn:Hp. revert l Hp.
  induction Hc as [|l' o ls Hl Hc IH]; intros l Hp k Hk; simplify_eq.
  destruct k as [|k]; simpl in Hk; [lia|]. simpl.
  unfold first_defined. simpl. rewrite Hl. simpl.
  destruct (props o !! n) as [v|] eqn:Hn; simpl; [done|].
  destruct (proto o) as [q|] eqn:Hq.
  - apply (IH q eq_refl). lia.
  - inversion Hc. done.
Qed.

Lemma lookup_chain_resolve h n l ls :
  chain_of h (Some l) ls →
  lookup_chain h l n = Some (default VUndef (first_defined h ls n)).
Proof.
  intros Hc. apply get_fuel_chain; [done|].
  apply chain_of_length in Hc. lia.
Qed.

Lemma lookup_chain_own h l o n v :
  h !! l = Some o → props o !! n = Some v → lookup_chain h l n = Some v.
Proof. intros Hl Hn. unfold lookup_chain. simpl. by rewrite Hl, Hn. Qed.

(** The cycle check of [Object.setPrototypeOf] tests membership in the
    chain of the new parent. *)
Lemma reaches_fuel_chain h p ls o :
  chain_of h p ls →
  ∀ k, length ls < k → reaches_fuel k h p o = Some (bool_decide (o ∈ ls)).
Proof.
  induction 1 as [|l ob ls Hl Hc IH]; intros k Hk.
  - destruct k; [lia | done].
  - destruct k as [|k]; [simpl in Hk; lia|]. cbn [reaches_fuel].
    destruct (decide (l = o)) as [->|Hne].
    + f_equal. symmetry. apply bool_decide_eq_true_2. by left.
    + rewrite Hl, IH by (simpl in Hk; lia). f_equal. apply bool_decide_ext.
      rewrite elem_of_cons. intuition congruence.
Qed.

(** Chains only depend on the links. *)
Lemma chain_of_same_links h h' p ls :
  (∀ l, proto <$> h' !! l = proto <$> h !! l) →
  chain_of h p ls → chain_of h' p ls.
Proof.
  intros Hlinks. induction 1 as [|l o ls Hl Hc IH]; [constructor|].
  specialize (Hlinks l). rewrite Hl in Hlinks. simpl in Hlinks.
  destruct (h' !! l) as [o'|] eqn:Hl'; simplify_eq/=.
  econstructor; [done|]. by rewrite Hlinks.
Qed.

(** A chain is not disturbed by a change to an object outside it. *)
Lemma chain_of_change_outside h f l p ls :
  chain_of h p ls → l ∉ ls → chain_of (partial_alter f l h) p ls.
Proof.
  induction 1 as [|l' o ls Hl Hc IH]; intros Hnot; [constructor|].
  apply not_elem_of_cons in Hnot as [Hne Hnot].
  econstructor; [by rewrite lookup_partial_alter_ne | by apply IH].
Qed.
End chains.

(** ** Reads and writes *)

Section access.
Implicit Types (s : state) (l e : loc) (n : string) (v : value).

Lemma bind_unfold {A B} (m : M A) (k : A → M B) s :
  (m ≫= k) s = match m s with
               | Ok a s' => k a s'
               | Throw e s' => Throw e s'
               | Diverge => Diverge
               | Stuck => Stuck
               end.
Proof. done. Qed.

Lemma own_prop_Some s l n v :
  own_prop s l n = Some v ↔ ∃ o, heap s !! l = Some o ∧ props o !! n = Some v.
Proof.
  unfold own_prop. destruct (heap s !! l) as [o|]; simpl.
  - split; [by exists o | by intros (? & [= <-] & ?)].
  - split; [done | by intros (? & ? & ?)].
Qed.

(** Every name but [__proto__] is read from the data properties and
    written as the receiver's own data property. *)
Lemma Get_data s l n :
  n ≠ "__proto__" →
  Get l n s = match lookup_chain (heap s) l n with
              | Some v => Ok v s
              | None => Diverge
              end.
Proof.
  intros Hn%String.eqb_neq. unfold Get. rewrite Hn.
  by destruct (lookup_chain (heap s) l n).
Qed.

Lemma Put_data s l n v : n ≠ "__proto__" → Put l n v s = write_own l n v s.
Proof. intros Hn%String.eqb_neq. unfold Put. by rewrite Hn. Qed.

Lemma Get_resolved s l n v :
  n ≠ "__proto__" → lookup_chain (heap s) l n = Some v → Get l n s = Ok v s.
Proof. intros Hn Hv. by rewrite Get_data, Hv. Qed.


Lemma Put_allocated s l n v :
  n ≠ "__proto__" →
  is_Some (heap s !! l) → Put l n v s = Ok tt (with_field s l n v).
Proof. intros Hn [o Hl]. rewrite Put_data by done. unfold write_own. by rewrite Hl. Qed.

Lemma own_prop_with_field s l n v l' n' :
  own_prop (with_field s l n v) l' n' =
    if decide (l = l' ∧ n = n') then (λ _, v) <$> heap s !! l
    else own_prop s l' n'.
Proof.
  unfold own_prop, with_field. simpl.
  destruct (decide (l = l')) as [<-|Hl].
  - rewrite lookup_alter_eq. destruct (heap s !! l) as [o|]; simpl.
    + destruct (decide (n = n')) as [<-|Hn].
      * rewrite decide_True by done. by rewrite lookup_insert_eq.
      * rewrite decide_False by (by intros [_ ?]). by rewrite lookup_insert_ne.
    + by case_decide.
  - rewrite lookup_alter_ne by done.
    by rewrite decide_False by (by intros [? _]).
Qed.

Lemma own_prop_with_field_eq s l n v :
  is_Some (heap s !! l) → own_prop (with_field s l n v) l n = Some v.
Proof.
  intros [o Hl]. rewrite own_prop_with_field, decide_True by done.
  by rewrite Hl.
Qed.

Lemma own_prop_with_field_ne s l n v l' n' :
  l ≠ l' ∨ n ≠ n' → own_prop (with_field s l n v) l' n' = own_prop s l' n'.
Proof.
  intros H. rewrite own_prop_with_field, decide_False; [done | tauto].
Qed.

Lemma proto_of_with_field s l n v l' :
  proto_of (with_field s l n v) l' = proto_of s l'.
Proof.
  unfold proto_of, with_field. simpl.
  destruct (decide (l = l')) as [<-|Hl].
  - rewrite lookup_alter_eq. by destruct (heap s !! l).
  - by rewrite lookup_alter_ne.
Qed.

Lemma with_field_same s l n v : own_prop s l n = Some v → with_field s l n v = s.
Proof.
  intros (o & Hl & Hn)%own_prop_Some. destruct s as [h c].
  unfold with_field. simpl in *. f_equal.
  apply alter_id. intros o' Ho'. rewrite Hl in Ho'. injection Ho' as <-.
  destruct o as [ps q]. unfold set_own. simpl in *. f_equal. by apply insert_id.
Qed.

Lemma with_field_twice s l n v w :
  with_field (with_field s l n v) l n w = with_field s l n w.
Proof.
  unfold with_field. simpl. f_equal.
  rewrite alter_alter_eq. apply alter_ext. intros [ps q] _.
  unfold set_own. simpl. f_equal. apply insert_insert_eq.
Qed.

Lemma size_with_field s l n v : size (heap (with_field s l n v)) = size (heap s).
Proof.
  unfold with_field. simpl.
  rewrite <-!(size_dom (D := gset loc)). by rewrite dom_alter_L.
Qed.

(** A walk for [n'] only looks at the links and at what is stored under [n']. *)
Lemma get_fuel_ext (h h' : gmap loc obj) n' :
  (∀ l, (λ o, (props o !! n', proto o)) <$> h' !! l
        = (λ o, (props o !! n', proto o)) <$> h !! l) →
  ∀ k l, get_fuel k h' l n' = get_fuel k h l n'.
Proof.
  intros Hag k. induction k as [|k IH]; intros l; [done|]. simpl.
  specialize (Hag l).
  destruct (h' !! l) as [o'|], (h !! l) as [o|]; simpl in Hag; try done.
  injection Hag as -> ->. destruct (props o !! n'); [done|].
  destruct (proto o); [apply IH | done].
Qed.

Lemma lookup_chain_with_field s l n v l' n' :
  n ≠ n' →
  lookup_chain (heap (with_field s l n v)) l' n' = lookup_chain (heap s) l' n'.
Proof.
  intros Hn. unfold lookup_chain. rewrite size_with_field.
  apply get_fuel_ext. intros l0. unfold with_field. simpl.
  destruct (decide (l = l0)) as [<-|Hl].
  - rewrite lookup_alter_eq. destruct (heap s !! l) as [[ps q]|]; simpl; [|done].
    by rewrite lookup_insert_ne.
  - by rewrite lookup_alter_ne.
Qed.

Lemma counted_field_data n : n ∈ counted_fields → n ≠ "__proto__".
Proof.
  intros Hn ->. unfold counted_fields in Hn.
  repeat (apply elem_of_cons in Hn as [Hn|Hn]; [discriminate Hn|]).
  by apply elem_of_nil in Hn.
Qed.

(** [l.n++] with the value found at the end of the walk. *)
Lemma postfix_incr_resolved s l n v x :
  n ≠ "__proto__" →
  is_Some (heap s !! l) →
  lookup_chain (heap s) l n = Some v →
  to_number v = Some x →
  postfix_incr l n s = Ok (VNum x) (with_field s l n (VNum (add1 x))).
Proof.
  intros Hne Hl Hv Hx. unfold postfix_incr.
  rewrite bind_unfold, (Get_resolved _ _ _ _ Hne Hv). cbv beta iota.
  rewrite Hx. by rewrite bind_unfold, Put_allocated.
Qed.

Lemma postfix_incr_own s l n x :
  n ≠ "__proto__" →
  own_prop s l n = Some (VNum x) →
  postfix_incr l n s = Ok (VNum x) (with_field s l n (VNum (add1 x))).
Proof.
  intros Hne Hown. pose proof Hown as (o & Hl & Hn)%own_prop_Some.
  apply (postfix_incr_resolved _ _ _ (VNum x)); eauto.
  by eapply lookup_chain_own.
Qed.

Lemma postfix_incr_footprint l n s :
  n ∈ counted_fields →
  match postfix_incr l n s with
  | Ok _ s' => footprint s s'
  | Throw _ s' => s' = s
  | _ => True
  end.
Proof.
  intros Hn. pose proof (counted_field_data _ Hn) as Hne.
  unfold postfix_incr. rewrite bind_unfold, Get_data by done.
  destruct (lookup_chain (heap s) l n) as [v|]; [|done].
  destruct (to_number v) as [x|]; [|done].
  rewrite bind_unfold, Put_data by done. unfold write_own.
  destruct (heap s !! l) as [o|] eqn:Hl; [|done].
  simpl. apply (fp_field s l n (add1 x)); eauto.
Qed.

(** Counting is exact on the integers a double holds one by one. *)
Lemma round_double_exact (m : Z) :
  (Z.abs m ≤ 2 ^ 53)%Z → round_double m = m.
Proof.
  intros Hm. unfold round_double.
  destruct (Z.ltb_spec (Z.abs m) (2 ^ 53)) as [|Hge]; [done|].
  assert (m = 2 ^ 53 ∨ m = - 2 ^ 53)%Z as [->| ->] by lia; reflexivity.
Qed.

Lemma add1_exact (z : Z) :
  (- 2 ^ 53 ≤ z)%Z → (z < 2 ^ 53)%Z → add1 (Int z) = Int (z + 1).
Proof. intros. cbn [add1]. rewrite round_double_exact; [done | lia]. Qed.

(** From 2^53 on the successor is not a double: [x++] there rounds back to
    2^53. *)
Lemma add1_stops : add1 (Int (2 ^ 53)) = Int (2 ^ 53).
Proof. reflexivity. Qed.

(** [round_double] against the addition of IEEE-754 binary64 of the
    Standard Library, on integers below, at and beyond the 53 bits. *)
Example round_double_is_binary64_addition :
  let double_of_Z (z : Z) := SpecFloat.binary_normalize 53 1024 z 0 false in
  let Z_of_double (x : SpecFloat.spec_float) :=
    match x with
    | SpecFloat.S754_zero _ => Some 0%Z
    | SpecFloat.S754_finite sign m e =>
        Some ((if sign then -1 else 1) * (Z.pos m * 2 ^ e))%Z
    | _ => None
    end in
  Forall (λ z, Z_of_double (SpecFloat.SFadd 53 1024 (double_of_Z z) (double_of_Z 1%Z))
               = Some (round_double (z + 1)))
    [ 2 ^ 53 - 1; 2 ^ 53; 2 ^ 53 + 2; 2 ^ 54 - 2; 2 ^ 54; 2 ^ 60;
      - 2 ^ 53 - 2; - 2 ^ 54; - 2 ^ 60 ]%Z.
Proof. repeat constructor. Qed.
End access.

(** ** Calls *)

Section calls.
Implicit Types (s : state) (l e : loc) (n : string) (v : value) (f : func).

Lemma call_method_got s e n f :
  Get e n s = Ok (VFun f) s → call_method e n s = Call f (VObj e) s.
Proof. intros H. unfold call_method. by rewrite bind_unfold, H. Qed.

Lemma Function_call_got s l n f v :
  Get l n s = Ok (VFun f) s → Function_call l n v s = Call f v s.
Proof. intros H. unfold Function_call. by rewrite bind_unfold, H. Qed.

Lemma call_method_resolved s e n f :
  n ≠ "__proto__" →
  lookup_chain (heap s) e n = Some (VFun f) →
  call_method e n s = Call f (VObj e) s.
Proof. intros Hn H. by apply call_method_got, Get_resolved. Qed.

Lemma Function_call_resolved s l n f v :
  n ≠ "__proto__" →
  lookup_chain (heap s) l n = Some (VFun f) →
  Function_call l n v s = Call f v s.
Proof. intros Hn H. by apply Function_call_got, Get_resolved. Qed.

(** [this.fld++] reads [fld] through the chain and writes the receiver. *)
Lemma counting_reads_through s e f fld v x :
  this_counter f = Some fld →
  is_Some (heap s !! e) →
  lookup_chain (heap s) e fld = Some v →
  to_number v = Some x →
  Call f (VObj e) s = Ok VUndef (with_field s e fld (VNum (add1 x))).
Proof.
  intros Hf He Hv Hx.
  assert (Hincr : fld ≠ "__proto__" →
                  (postfix_incr e fld;; mret VUndef) s
                  = Ok VUndef (with_field s e fld (VNum (add1 x)))).
  { intros Hne. by rewrite bind_unfold,
      (postfix_incr_resolved _ _ _ _ _ Hne He Hv Hx). }
  destruct f; simpl in Hf; try done; injection Hf as <-;
    try (rewrite <-Hincr by done; reflexivity).
  transitivity (((postfix_incr e "score";; mret VUndef);; mret VUndef) s);
    [reflexivity|].
  by rewrite bind_unfold, Hincr.
Qed.

(** A function whose body is [this.fld++], run with an object that stores
    [fld] as [this]. *)
Lemma Call_this_counter s e f fld x :
  this_counter f = Some fld →
  own_prop s e fld = Some (VNum x) →
  Call f (VObj e) s = Ok VUndef (with_field s e fld (VNum (add1 x))).
Proof.
  intros Hf (o & Hl & Hn)%own_prop_Some.
  apply (counting_reads_through _ _ _ _ (VNum x)); eauto.
  by eapply lookup_chain_own.
Qed.

(** A function that names its object directly ignores [this]. *)
Lemma Call_increment_closure s owner v x :
  own_prop s owner "score" = Some (VNum x) →
  Call (increment_closure owner) v s
  = Ok VUndef (with_field s owner "score" (VNum (add1 x))).
Proof.
  intros H. simpl.
  by rewrite bind_unfold, (postfix_incr_own _ _ "score" x ltac:(done) H).
Qed.

Lemma Z_succ_of_nat (z : Z) (k : nat) :
  (z + 1 + Z.of_nat k = z + Z.of_nat (S k))%Z.
Proof. lia. Qed.

(** [k] calls of a counting method, while the count is exact. *)
Lemma invoke_n_counts s e n f fld z k :
  n ≠ "__proto__" →
  lookup_chain (heap s) e n = Some (VFun f) →
  n ≠ fld →
  (∀ s' x, own_prop s' e fld = Some (VNum x) →
           Call f (VObj e) s' = Ok VUndef (with_field s' e fld (VNum (add1 x)))) →
  own_prop s e fld = Some (VNum (Int z)) →
  (- 2 ^ 53 ≤ z)%Z →
  (z + Z.of_nat k ≤ 2 ^ 53)%Z →
  invoke_n e n k s = Ok tt (with_field s e fld (VNum (Int (z + Z.of_nat k)))).
Proof.
  intros Hproto Hres Hne Hcall. revert s z Hres.
  induction k as [|k IH]; intros s z Hres Hown Hlo Hhi.
  - simpl. rewrite Z.add_0_r. by rewrite with_field_same.
  - cbn [invoke_n].
    rewrite bind_unfold, (call_method_resolved _ _ _ _ Hproto Hres).
    rewrite (Hcall _ _ Hown), add1_exact by lia.
    rewrite (IH _ (z + 1)%Z).
    + by rewrite with_field_twice, Z_succ_of_nat.
    + by rewrite lookup_chain_with_field.
    + apply own_prop_with_field_eq.
      apply own_prop_Some in Hown as (o & -> & _). eauto.
    + lia.
    + lia.
Qed.

(** A counting method called on a field that holds 2^53, or NaN: the state
    stays as it is, however often it is called. *)
Lemma invoke_n_stops s e n f fld x k :
  n ≠ "__proto__" →
  lookup_chain (heap s) e n = Some (VFun f) →
  (∀ s' x, own_prop s' e fld = Some (VNum x) →
           Call f (VObj e) s' = Ok VUndef (with_field s' e fld (VNum (add1 x)))) →
  own_prop s e fld = Some (VNum x) →
  add1 x = x →
  invoke_n e n k s = Ok tt s.
Proof.
  intros Hproto Hres Hcall Hown Hx. induction k as [|k IH]; [done|].
  cbn [invoke_n]. rewrite bind_unfold, (call_method_resolved _ _ _ _ Hproto Hres).
  rewrite (Hcall _ _ Hown), Hx. by rewrite (with_field_same _ _ _ _ Hown).
Qed.

Lemma with_field_other s l n v l' :
  l' ≠ l → heap (with_field s l n v) !! l' = heap s !! l'.
Proof. intros Hne. unfold with_field. simpl. by rewrite lookup_alter_ne. Qed.
End calls.

(** ** Footprints *)

Section footprints.
Implicit Types (s : state) (l e : loc) (n : string) (v : value) (f : func).

Lemma then_undef_footprint {A} (m : M A) s :
  within_footprint s (m s) → within_footprint s ((m;; mret VUndef) s).
Proof. rewrite bind_unfold. by destruct (m s). Qed.

Lemma counting_footprint l n s :
  n ∈ counted_fields →
  within_footprint s ((postfix_incr l n;; mret VUndef) s).
Proof. intros. by apply then_undef_footprint, postfix_incr_footprint. Qed.

Lemma score_counted : "score" ∈ counted_fields.
Proof. by left. Qed.
Lemma accountBalance_counted : "accountBalance" ∈ counted_fields.
Proof. right. by left. Qed.
Lemma num_counted : "num" ∈ counted_fields.
Proof. do 2 right. by left. Qed.

Lemma sayName_body_footprint l s :
  within_footprint s
    ((w ← Get l "name";
      match to_string w with
      | Some t => console_log ("I am " +:+ t);; mret VUndef
      | None => stuck
      end) s).
Proof.
  rewrite bind_unfold, Get_data by done.
  destruct (lookup_chain _ _ _) as [w|]; [|exact I].
  destruct (to_string w); [|exact I]. apply fp_log.
Qed.

Lemma sayName_footprint v s : within_footprint s (call_leaf sayName v s).
Proof.
  destruct v as [| | | |l|]; try exact I.
  - apply (sayName_body_footprint global_object).
  - apply (sayName_body_footprint global_object).
  - apply (sayName_body_footprint l).
Qed.

Lemma call_leaf_footprint f v s : within_footprint s (call_leaf f v s).
Proof.
  destruct f; try exact I.
  - apply counting_footprint, score_counted.
  - destruct v; try exact I; apply counting_footprint, score_counted.
  - destruct v; try exact I; try done. apply counting_footprint, score_counted.
  - apply fp_log.
  - apply sayName_footprint.
  - destruct v; try exact I; apply counting_footprint, accountBalance_counted.
  - destruct v; try exact I; apply counting_footprint, num_counted.
  - destruct v; try exact I; apply counting_footprint, score_counted.
  - apply counting_footprint, score_counted.
Qed.

(** A call of any function of the script changes at most one counted field
    of one object, or prints one line; a call that throws changes nothing. *)
Lemma Call_footprint f v s : within_footprint s (Call f v s).
Proof.
  destruct f; try apply call_leaf_footprint.
  - apply (then_undef_footprint (call_leaf add1_plain VUndef)),
      call_leaf_footprint.
  - destruct v as [| | | |l|]; try exact I.
    + apply (then_undef_footprint (call_leaf (add1_arrow global_object) VUndef)),
        call_leaf_footprint.
    + apply (then_undef_footprint (call_leaf (add1_arrow global_object) VUndef)),
        call_leaf_footprint.
    + apply (then_undef_footprint (call_leaf (add1_arrow l) VUndef)),
        call_leaf_footprint.
Qed.

Lemma footprint_proto s s' l : footprint s s' → proto_of s' l = proto_of s l.
Proof. destruct 1; [done | apply proto_of_with_field | done]. Qed.

Lemma footprint_allocated s s' l :
  footprint s s' → is_Some (heap s' !! l) ↔ is_Some (heap s !! l).
Proof.
  destruct 1 as [|l' n x _ _|]; [done | | done].
  unfold with_field. simpl. rewrite <-!elem_of_dom. by rewrite dom_alter_L.
Qed.
End footprints.

(** ** Counting *)

Lemma base_increment_counts s e f x :
  base_increment e f = true →
  own_prop s e "score" = Some (VNum x) →
  Call f (VObj e) s = Ok VUndef (with_field s e "score" (VNum (add1 x))).
Proof.
  intros Hf Hown. destruct f; simpl in Hf; try done.
  - apply bool_decide_eq_true in Hf as ->. by apply Call_increment_closure.
  - by apply (Call_this_counter _ _ increment "score").
  - by apply (Call_this_counter _ _ increment_class "score").
  - by apply (Call_this_counter _ _ increment_add1_arrow "score").
Qed.

(** What a counting call leaves alone. *)
Lemma with_field_frame s l n v :
  (∀ l', l' ≠ l → heap (with_field s l n v) !! l' = heap s !! l')
  ∧ (∀ n', n' ≠ n → own_prop (with_field s l n v) l n' = own_prop s l n')
  ∧ console (with_field s l n v) = console s.
Proof.
  split; [|split; [|done]].
  - intros l' Hne. by apply with_field_other.
  - intros n' Hne. apply own_prop_with_field_ne. right. congruence.
Qed.

(** ** Running the factories *)

Section factories.
Implicit Types (s : state) (l e : loc) (n : string) (v : value) (o : obj).

Lemma ret_run {A} (a : A) s : (mret a : M A) s = Ok a s.
Proof. done. Qed.

Lemma next_loc_fresh s : heap s !! next_loc s = None.
Proof.
  apply not_elem_of_dom. intros Hin.
  apply (is_fresh ({[ object_prototype; global_object ]} ∪ dom (heap s))).
  apply elem_of_union. by right.
Qed.

(** A new object is neither [Object.prototype] nor the global object. *)
Lemma next_loc_realm s :
  next_loc s ≠ object_prototype ∧ next_loc s ≠ global_object.
Proof.
  pose proof (is_fresh ({[ object_prototype; global_object ]} ∪ dom (heap s)))
    as Hfresh.
  split; intros Heq; apply Hfresh; apply elem_of_union; left;
    unfold next_loc in Heq; rewrite Heq; set_solver.
Qed.

Lemma alloc_rec_run mk s :
  alloc_rec mk s = Ok (next_loc s) (with_new s (mk (next_loc s))).
Proof. done. Qed.

Lemma Put_new s o n v :
  n ≠ "__proto__" →
  Put (next_loc s) n v (with_new s o) = Ok tt (with_new s (set_own n v o)).
Proof.
  intros Hn. rewrite Put_data by done. unfold write_own, with_new. simpl.
  rewrite lookup_insert_eq. by rewrite alter_insert_eq.
Qed.

Lemma with_new_lookup_old s o l :
  is_Some (heap s !! l) → heap (with_new s o) !! l = heap s !! l.
Proof.
  intros [o' Hl]. unfold with_new. simpl. apply lookup_insert_ne.
  intros <-. by rewrite next_loc_fresh in Hl.
Qed.

Lemma with_new_lookup_new s o : heap (with_new s o) !! next_loc s = Some o.
Proof. unfold with_new. simpl. apply lookup_insert_eq. Qed.

Lemma own_prop_with_new s o n : own_prop (with_new s o) (next_loc s) n = props o !! n.
Proof. unfold own_prop. by rewrite with_new_lookup_new. Qed.
End factories.

(** One statement of a factory body, run on the state built so far. *)
Ltac mstep :=
  rewrite bind_unfold;
  cbn [sloppy_this strict_this];
  rewrite ?alloc_rec_run, ?ret_run;
  rewrite ?Put_new by done;
  cbv beta iota.

(** Lines 78-86. *)
Lemma Solution1_userCreator_run s name score :
  Solution1.userCreator name score s
  = Ok (next_loc s)
       (with_new s (Obj (<[ "increment" := VFun (increment_closure (next_loc s)) ]>
                         (<[ "score" := score ]> (<[ "name" := name ]> ∅)))
                        (Some object_prototype))).
Proof.
  unfold Solution1.userCreator, object_literal, alloc. by do 4 mstep.
Qed.

(** Lines 21-27. *)
Lemma Encapsulation_user1_run s :
  Encapsulation.user1 s
  = Ok (next_loc s)
       (with_new s (Obj {[ "name" := VStr "Phil"; "score" := VNum (Int 4);
                           "increment" := VFun (increment_closure (next_loc s)) ]}
                        (Some object_prototype))).
Proof. done. Qed.

(** Lines 54-59. *)
Lemma Encapsulation_user2_run s :
  Encapsulation.user2 s
  = Ok (next_loc s)
       (with_new s (Obj (<[ "increment" := VFun (increment_closure (next_loc s)) ]>
                         (<[ "score" := VNum (Int 5) ]>
                          (<[ "name" := VStr "Julia" ]> ∅)))
                        (Some object_prototype))).
Proof.
  unfold Encapsulation.user2, object_literal, alloc. by do 4 mstep.
Qed.

(** Lines 63-68. *)
Lemma Encapsulation_user3_run s :
  Encapsulation.user3 s
  = Ok (next_loc s)
       (with_new s (Obj (<[ "increment" := VFun (increment_closure (next_loc s)) ]>
                         (<[ "score" := VNum (Int 9) ]>
                          (<[ "name" := VStr "Eva" ]> ∅)))
                        None)).
Proof.
  unfold Encapsulation.user3, Object_create, alloc. by do 4 mstep.
Qed.

(** Lines 154-159. *)
Lemma Solution2_userCreator_run s store name score :
  Solution2.userCreator store name score s
  = Ok (next_loc s)
       (with_new s (Obj (<[ "score" := score ]> (<[ "name" := name ]> ∅))
                        (Some store))).
Proof.
  unfold Solution2.userCreator, Object_create, alloc. by do 3 mstep.
Qed.

(** Lines 377-382. *)
Lemma Subclassing2_userCreator_run s userFunctions name score :
  Subclassing2.userCreator userFunctions name score s
  = Ok (next_loc s)
       (with_new s (Obj (<[ "score" := score ]> (<[ "name" := name ]> ∅))
                        (Some userFunctions))).
Proof.
  unfold Subclassing2.userCreator, Object_create, alloc. by do 3 mstep.
Qed.

(** Lines 439-442, run on the object [new] has just made. *)
Lemma Subclassing3_userCreator_run s o name score :
  Subclassing3.userCreator (VObj (next_loc s)) name score (with_new s o)
  = Ok VUndef (with_new s (set_own "score" score (set_own "name" name o))).
Proof. unfold Subclassing3.userCreator. by do 3 mstep. Qed.

(** Line 451: [new userCreator(name, score)]. *)
Lemma Subclassing3_new_userCreator_run s userCreator_prototype name score :
  Subclassing3.new_userCreator userCreator_prototype name score s
  = Ok (next_loc s)
       (with_new s (Obj (<[ "score" := score ]> (<[ "name" := name ]> ∅))
                        (Some userCreator_prototype))).
Proof.
  unfold Subclassing3.new_userCreator, construct, alloc. mstep.
  rewrite bind_unfold, Subclassing3_userCreator_run. done.
Qed.

(** Line 467: [new paidUserCreator(paidName, paidScore, accountBalance)]. *)
Lemma Subclassing3_new_paidUserCreator_run
    s paidUserCreator_prototype name score balance :
  Subclassing3.new_paidUserCreator paidUserCreator_prototype name score balance s
  = Ok (next_loc s)
       (with_new s (Obj (<[ "accountBalance" := balance ]>
                         (<[ "score" := score ]> (<[ "name" := name ]> ∅)))
                        (Some paidUserCreator_prototype))).
Proof.
  unfold Subclassing3.new_paidUserCreator, construct, alloc. mstep.
  rewrite bind_unfold. unfold Subclassing3.paidUserCreator.
  rewrite bind_unfold, Subclassing3_userCreator_run. cbv beta iota.
  by do 2 mstep.
Qed.

(** Lines 395-400: the base user is made, and the next statement names a
    variable that is bound nowhere. *)
Lemma Subclassing2_paidUserCreator_run
    s userFunctions paidUserFunctions name score balance :
  Subclassing2.paidUserCreator userFunctions paidUserFunctions name score balance s
  = Throw (ReferenceError "newUserpaid")
          (with_new s (Obj (<[ "score" := score ]> (<[ "name" := name ]> ∅))
                           (Some userFunctions))).
Proof.
  unfold Subclassing2.paidUserCreator.
  by rewrite bind_unfold, Subclassing2_userCreator_run.
Qed.

(** The body of the constructors of lines 200-203, 230-233, 262-265, 284-287
    and 439-442, run on the object [new] has just made. *)
Lemma constructor_body_run s o name score :
  Solution3.userCreator (VObj (next_loc s)) name score (with_new s o)
  = Ok VUndef (with_new s (set_own "score" score (set_own "name" name o))).
Proof. unfold Solution3.userCreator. by do 3 mstep. Qed.

Lemma class_constructor_body_run s o name score :
  Solution4.UserCreator (VObj (next_loc s)) name score (with_new s o)
  = Ok VUndef (with_new s (set_own "score" score (set_own "name" name o))).
Proof. unfold Solution4.UserCreator. by do 3 mstep. Qed.

(** ** Resolution *)

Lemma chain_of_shape h p ls :
  chain_of h p ls →
  head ls = p ∧ ∀ i l, ls !! i = Some l → ls !! S i = (h !! l) ≫= proto.
Proof.
  induction 1 as [|l o ls Hl Hc [IHhd IHtl]]; [done|].
  split; [done|]. intros [|i] l' Hi; simpl in *.
  - simplify_eq. rewrite Hl. simpl. rewrite <-IHhd. by destruct ls.
  - by apply IHtl.
Qed.

Lemma first_defined_None h ls n :
  first_defined h ls n = None ↔ Forall (λ l, (h !! l) ≫= (λ o, props o !! n) = None) ls.
Proof.
  unfold first_defined. induction ls as [|l ls IH]; simpl.
  - split; [constructor | done].
  - destruct (h !! l ≫= λ o, props o !! n) as [v|] eqn:Hl; simpl.
    + split; [done | intros Hall; inversion Hall; congruence].
    + rewrite IH. split; [intros; by constructor | by inversion 1].
Qed.

Lemma first_defined_agree h h' ls n :
  (∀ l, l ∈ ls → h' !! l = h !! l) →
  first_defined h' ls n = first_defined h ls n.
Proof.
  intros Hag. unfold first_defined. f_equal.
  induction ls as [|l ls IH]; [done|]. cbn [omap list_omap].
  rewrite (Hag l) by by left. rewrite IH; [done|].
  intros l' Hl'. apply Hag. by right.
Qed.

(** The walk for [__proto__] visits the levels of the chain in order. *)
Lemma accessor_fuel_chain h l ls :
  chain_of h (Some l) ls →
  ∀ k, length ls ≤ k → accessor_fuel k h l = Some (chain_accessor h ls).
Proof.
  intros Hc. remember (Some l) as p eqn:Hp. revert l Hp.
  induction Hc as [|l' o ls Hl Hc IH]; intros l Hp k Hk; simplify_eq.
  destruct k as [|k]; simpl in Hk; [lia|]. simpl. rewrite Hl. simpl.
  destruct (props o !! "__proto__"); [done|].
  destruct (decide (l = object_prototype)); [done|].
  destruct (proto o) as [q|] eqn:Hq.
  - apply (IH q eq_refl). lia.
  - inversion Hc. done.
Qed.

Lemma inherits_accessor_chain h l ls :
  chain_of h (Some l) ls → inherits_accessor h l = Some (chain_accessor h ls).
Proof.
  intros Hc. apply (accessor_fuel_chain _ _ _ Hc).
  apply chain_of_length in Hc. lia.
Qed.

Lemma chain_accessor_agree h h' ls :
  (∀ l, l ∈ ls → h' !! l = h !! l) →
  chain_accessor h' ls = chain_accessor h ls.
Proof.
  intros Hag. induction ls as [|l ls IH]; [done|]. cbn [chain_accessor].
  rewrite (Hag l) by by left. rewrite IH; [done|].
  intros l' Hl'. apply Hag. by right.
Qed.

(** A read on an object whose chain ends returns, with the state as it
    was. *)
Lemma Get_chain s l n ls :
  chain_of (heap s) (Some l) ls → Get l n s = Ok (resolved (heap s) l ls n) s.
Proof.
  intros Hc. unfold Get, resolved. rewrite (lookup_chain_resolve _ n _ _ Hc).
  destruct (String.eqb n "__proto__"); [|done].
  rewrite (inherits_accessor_chain _ _ _ Hc).
  by destruct (chain_accessor (heap s) ls).
Qed.

Lemma resolved_data h l ls n :
  n ≠ "__proto__" → resolved h l ls n = default VUndef (first_defined h ls n).
Proof. intros Hn%String.eqb_neq. unfold resolved. by rewrite Hn. Qed.

(** A name stored at no level never reads as a function. *)
Lemma resolved_missing h l ls n f :
  first_defined h ls n = None → resolved h l ls n ≠ VFun f.
Proof.
  intros Hnone. unfold resolved. rewrite Hnone.
  destruct (String.eqb n "__proto__" && chain_accessor h ls); [|done].
  by destruct (h !! l ≫= proto).
Qed.

(** ** Acyclicity *)

Section acyclicity.
Implicit Types (s : state) (h : gmap loc obj) (l o : loc) (p : option loc).

Lemma acyclic_same_links h h' :
  (∀ l, proto <$> h' !! l = proto <$> h !! l) → acyclic h → acyclic h'.
Proof.
  intros Hlinks Hac. apply acyclic_intro. intros l [o' Hl'].
  destruct (acyclic_chain h l Hac) as [ls Hls].
  - specialize (Hlinks l). rewrite Hl' in Hlinks.
    destruct (h !! l); [by eauto | done].
  - exists ls. by eapply chain_of_same_links.
Qed.

Lemma acyclic_footprint s s' : footprint s s' → acyclic (heap s) → acyclic (heap s').
Proof.
  intros Hfp. apply acyclic_same_links. intros l.
  apply (footprint_proto _ _ l Hfp).
Qed.

Lemma chain_of_with_new s ob p ls :
  chain_of (heap s) p ls → chain_of (heap (with_new s ob)) p ls.
Proof.
  intros Hc. apply (chain_of_change_outside _ (λ _, Some ob)); [done|].
  intros Hin. apply (chain_of_allocated _ _ _ _ Hc) in Hin as [? Hin].
  by rewrite next_loc_fresh in Hin.
Qed.

Lemma acyclic_with_new s ob :
  (∀ q, proto ob = Some q → is_Some (heap s !! q)) →
  acyclic (heap s) → acyclic (heap (with_new s ob)).
Proof.
  intros Hp Hac. apply acyclic_intro. intros l [o' Hl].
  destruct (decide (l = next_loc s)) as [->|Hne].
  - assert (∃ ls, chain_of (heap s) (proto ob) ls) as [ls Hls].
    { destruct (proto ob) as [q|] eqn:Hq.
      - apply acyclic_chain; [done | by apply Hp].
      - exists []. constructor. }
    exists (next_loc s :: ls). econstructor; [apply with_new_lookup_new|].
    by apply chain_of_with_new.
  - unfold with_new in Hl. simpl in Hl. rewrite lookup_insert_ne in Hl by done.
    destruct (acyclic_chain _ l Hac) as [ls Hls]; [by eauto|].
    exists ls. by apply chain_of_with_new.
Qed.

Lemma chain_of_relink h o p lp q ls :
  chain_of h p lp → o ∉ lp →
  chain_of h q ls →
  ∃ ls', chain_of (alter (set_proto p) o h) q ls'.
Proof.
  intros Hp Hnot. induction 1 as [|l ob ls Hl Hc [ls' IH]].
  - exists []. constructor.
  - destruct (decide (l = o)) as [->|Hne].
    + exists (o :: lp). econstructor.
      * rewrite lookup_alter_eq, Hl. done.
      * simpl. by apply (chain_of_change_outside _ (fmap (set_proto p))).
    + exists (l :: ls'). econstructor; [by rewrite lookup_alter_ne|done].
Qed.

Lemma acyclic_relink h o p lp :
  acyclic h → chain_of h p lp → o ∉ lp → acyclic (alter (set_proto p) o h).
Proof.
  intros Hac Hp Hnot. apply acyclic_intro. intros l Hl.
  apply lookup_alter_is_Some in Hl.
  destruct (acyclic_chain _ l Hac Hl) as [ls Hls].
  by eapply chain_of_relink.
Qed.

Lemma chain_of_option h p :
  acyclic h → (∀ q, p = Some q → is_Some (h !! q)) → ∃ lp, chain_of h p lp.
Proof.
  intros Hac Hp. destruct p as [q|].
  - apply acyclic_chain; [done | by apply Hp].
  - exists []. constructor.
Qed.

(** [Object.setPrototypeOf] on a chain that ends: the three outcomes. *)
Lemma Object_setPrototypeOf_run s o ob p lp :
  heap s !! o = Some ob →
  chain_of (heap s) p lp →
  Object_setPrototypeOf o p s
  = if decide (proto ob = p) then Ok (VObj o) s
    else if decide (o = object_prototype) then Throw (TypeError CyclicProto) s
    else if bool_decide (o ∈ lp) then Throw (TypeError CyclicProto) s
    else Ok (VObj o) (State (alter (set_proto p) o (heap s)) (console s)).
Proof.
  intros Ho Hp. unfold Object_setPrototypeOf. rewrite Ho.
  destruct (decide (proto ob = p)); [done|].
  destruct (decide (o = object_prototype)); [done|].
  rewrite (reaches_fuel_chain _ _ _ o Hp).
  - by destruct (bool_decide (o ∈ lp)).
  - apply chain_of_length in Hp. lia.
Qed.

(** A request to link, on a heap whose chains all end: accepted with all
    chains still ending, or refused with no change. *)
Lemma Object_setPrototypeOf_acyclic s o p :
  acyclic (heap s) →
  is_Some (heap s !! o) →
  (∀ q, p = Some q → is_Some (heap s !! q)) →
  match Object_setPrototypeOf o p s with
  | Ok _ s' => acyclic (heap s')
  | Throw e s' => e = TypeError CyclicProto ∧ s' = s
  | _ => False
  end.
Proof.
  intros Hac [ob Ho] Hp.
  destruct (chain_of_option _ _ Hac Hp) as [lp Hlp].
  rewrite (Object_setPrototypeOf_run _ _ _ _ _ Ho Hlp).
  destruct (decide (proto ob = p)); [done|].
  destruct (decide (o = object_prototype)); [done|].
  destruct (bool_decide (o ∈ lp)) eqn:Hin; [done|].
  apply bool_decide_eq_false in Hin. simpl. by eapply acyclic_relink.
Qed.

Lemma write_own_acyclic s l n v :
  acyclic (heap s) →
  match write_own l n v s with
  | Ok _ s' => acyclic (heap s')
  | _ => True
  end.
Proof.
  intros Hac. unfold write_own. destruct (heap s !! l) as [ob|] eqn:Hl; [|done].
  apply (acyclic_same_links (heap s)); [|done].
  intros l0. apply (proto_of_with_field s l n v l0).
Qed.

(** An assignment keeps all chains ending, the one to [__proto__] included. *)
Lemma Put_acyclic s l n v :
  acyclic (heap s) →
  match Put l n v s with
  | Ok _ s' => acyclic (heap s')
  | _ => True
  end.
Proof.
  intros Hac. unfold Put.
  destruct (String.eqb n "__proto__"); [|by apply write_own_acyclic].
  destruct (inherits_accessor (heap s) l) as [[]|] eqn:Hacc;
    [| by apply write_own_acyclic | done].
  assert (Hl : is_Some (heap s !! l)).
  { unfold inherits_accessor in Hacc. simpl in Hacc.
    destruct (heap s !! l); [by eauto | done]. }
  assert (Hlink : ∀ p, (∀ q, p = Some q → is_Some (heap s !! q)) →
            match (Object_setPrototypeOf l p;; mret tt) s with
            | Ok _ s' => acyclic (heap s')
            | _ => True
            end).
  { intros p Hp. rewrite bind_unfold.
    pose proof (Object_setPrototypeOf_acyclic s l p Hac Hl Hp) as H.
    by destruct (Object_setPrototypeOf l p s). }
  destruct v as [| | | |q|]; simpl; try done.
  - by apply Hlink.
  - destruct (heap s !! q) as [oq|] eqn:Hq; [|done].
    apply Hlink. intros q' [= <-]. eauto.
Qed.

Lemma Get_terminates s l n : acyclic (heap s) → ∃ v, Get l n s = Ok v s.
Proof.
  intros Hac.
  destruct (heap s !! l) as [ob|] eqn:Hl.
  - destruct (acyclic_chain _ l Hac) as [ls Hls]; [by eauto|].
    rewrite (Get_chain s l n ls Hls). eauto.
  - unfold Get, lookup_chain, inherits_accessor. simpl. rewrite Hl.
    destruct (String.eqb n "__proto__"); eauto.
Qed.
End acyclicity.

Lemma initial_acyclic : acyclic (heap initial).
Proof. apply (bool_decide_unpack _). vm_compute. exact I. Qed.

(** ** What a write changes *)

Lemma with_field_only s e fld v :
  is_Some (heap s !! e) → only_field_changed s (with_field s e fld v) e fld v.
Proof.
  intros He. split; [by apply own_prop_with_field_eq|].
  split; [intros l Hne; by apply with_field_other|].
  split; [intros n Hne; apply own_prop_with_field_ne; right; congruence|].
  split; [intros l; apply proto_of_with_field | done].
Qed.

Lemma only_field_changed_twice s s1 s2 e fld v w :
  only_field_changed s s1 e fld v →
  only_field_changed s1 s2 e fld w →
  only_field_changed s s2 e fld w.
Proof.
  intros (_ & H1 & H2 & H3 & H4) (Hw & G1 & G2 & G3 & G4).
  split; [done|].
  split; [intros l Hne; by rewrite G1, H1|].
  split; [intros n Hne; by rewrite G2, H2|].
  split; [intros l; by rewrite G3, H3 | by rewrite G4, H4].
Qed.

(** One counting call on a receiver that stores the field, while the count
    is exact. *)
Lemma Call_counts_once s e f fld z :
  this_counter f = Some fld →
  own_prop s e fld = Some (VNum (Int z)) →
  (- 2 ^ 53 ≤ z)%Z → (z < 2 ^ 53)%Z →
  ∃ s', Call f (VObj e) s = Ok VUndef s'
        ∧ only_field_changed s s' e fld (VNum (Int (z + 1))).
Proof.
  intros Hf Hown Hlo Hhi. eexists.
  split; [by apply (Call_this_counter _ _ _ fld (Int z))|].
  rewrite add1_exact by done. apply with_field_only.
  apply own_prop_Some in Hown as (o & -> & _). eauto.
Qed.

(** ** Printing *)

Lemma Call_sayName s e v t :
  lookup_chain (heap s) e "name" = Some v →
  to_string v = Some t →
  Call sayName (VObj e) s
  = Ok VUndef (State (heap s) (console s ++ ["I am " +:+ t])).
Proof.
  intros Hv Ht.
  change (Call sayName (VObj e) s)
    with ((w ← Get e "name";
           match to_string w with
           | Some t => console_log ("I am " +:+ t);; mret VUndef
           | None => stuck
           end) s).
  rewrite bind_unfold, (Get_resolved _ _ _ v) by done.
  cbv beta iota. by rewrite Ht.
Qed.

(** ** Inner functions *)

Lemma then_undef_twice (m : M value) s :
  ((m;; mret VUndef);; mret VUndef) s = (m;; mret VUndef) s.
Proof. rewrite !bind_unfold. by destruct (m s). Qed.

Lemma Call_add1_arrow_is_increment s e :
  Call increment_add1_arrow (VObj e) s = Call increment (VObj e) s.
Proof. apply (then_undef_twice (postfix_incr e "score")). Qed.

Lemma Call_add1_plain_is_global s v :
  Call increment_add1_plain v s = Call add1_plain (VObj global_object) s.
Proof. apply (then_undef_twice (postfix_incr global_object "score")). Qed.

Lemma postfix_incr_elsewhere l n s e :
  n ≠ "__proto__" →
  e ≠ l →
  match postfix_incr l n s with
  | Ok _ s' | Throw _ s' => heap s' !! e = heap s !! e
  | _ => True
  end.
Proof.
  intros Hn Hne. unfold postfix_incr. rewrite bind_unfold, Get_data by done.
  destruct (lookup_chain (heap s) l n) as [v|]; [|done].
  destruct (to_number v) as [x|]; [|done].
  rewrite bind_unfold, Put_data by done. unfold write_own.
  destruct (heap s !! l) as [o|] eqn:Hl; [|done].
  simpl. by rewrite lookup_alter_ne.
Qed.

(** The two inner functions.  When the inner function is an arrow function
    (lines 289-294), the nested call keeps the receiver: [e.increment()]
    does exactly what [this.score++] does with [this = e], so a score the
    count is exact on goes up by one.  When the inner function is a plain
    function called bare (lines 267-272), the nested call runs with the
    global object as [this], whatever the receiver was, and [e] itself is
    left alone. *)
Lemma inner_function_receiver (s : state) (e : loc) :
  Call increment_add1_arrow (VObj e) s = Call increment (VObj e) s
  ∧ (∀ z, own_prop s e "score" = Some (VNum (Int z)) →
          (- 2 ^ 53 ≤ z)%Z → (z < 2 ^ 53)%Z →
          ∃ s', Call increment_add1_arrow (VObj e) s = Ok VUndef s'
                ∧ only_field_changed s s' e "score" (VNum (Int (z + 1))))
  ∧ Call increment_add1_plain (VObj e) s = Call add1_plain (VObj global_object) s
  ∧ (e ≠ global_object →
     match Call increment_add1_plain (VObj e) s with
     | Ok _ s' | Throw _ s' => heap s' !! e = heap s !! e
     | _ => True
     end).
Proof.
  split; [apply Call_add1_arrow_is_increment|].
  split; [intros z Hz Hlo Hhi; by apply Call_counts_once|].
  split; [apply Call_add1_plain_is_global|].
  intros Hne. rewrite Call_add1_plain_is_global.
  change (Call add1_plain (VObj global_object) s)
    with ((postfix_incr global_object "score";; mret VUndef) s).
  rewrite bind_unfold.
  pose proof (postfix_incr_elsewhere global_object "score" s e
                ltac:(done) Hne) as H.
  by destruct (postfix_incr global_object "score" s).
Qed.

(** ** Behaviour sets stay as built *)

Lemma ops_of_set_number o n x :
  match props o !! n with Some (VFun _) => false | _ => true end = true →
  ops_of (set_own n (VNum x) o) = ops_of o.
Proof.
  intros Hn. unfold ops_of, set_own. simpl.
  rewrite omap_insert_None by done. apply delete_id.
  rewrite lookup_omap. by destruct (props o !! n) as [[]|].
Qed.

Lemma keeps_no_counter_field o n :
  keeps_no_counter o = true → n ∈ counted_fields →
  match props o !! n with Some (VFun _) => false | _ => true end = true.
Proof.
  unfold keeps_no_counter. rewrite forallb_forall. intros H Hn.
  apply H. by apply list_elem_of_In.
Qed.

Lemma footprint_behaviour s s' B o :
  footprint s s' → heap s !! B = Some o → keeps_no_counter o = true →
  ∃ o', heap s' !! B = Some o' ∧ ops_of o' = ops_of o ∧ proto o' = proto o.
Proof.
  intros Hfp HB Hkeep. destruct Hfp as [|l n x Hn _|]; [by eauto| |by eauto].
  unfold with_field. simpl. destruct (decide (l = B)) as [->|Hne].
  - rewrite lookup_alter_eq, HB. simpl. eexists. split; [done|].
    split; [|done]. apply ops_of_set_number. by apply keeps_no_counter_field.
  - rewrite lookup_alter_ne by done. eauto.
Qed.

(** ** Reads through a link *)

Lemma lookup_chain_step h l o q n :
  acyclic h → h !! l = Some o → props o !! n = None → proto o = Some q →
  lookup_chain h l n = lookup_chain h q n.
Proof.
  intros Hac Hl Hn Hq.
  destruct (acyclic_chain h l Hac) as [ls Hls]; [by eauto|].
  rewrite (lookup_chain_resolve _ n _ _ Hls).
  inversion Hls as [|l' o' ls' Hl' Hc]; subst.
  rewrite Hl in Hl'. injection Hl' as <-.
  rewrite Hq in Hc. rewrite (lookup_chain_resolve _ n _ _ Hc).
  unfold first_defined. cbn [omap list_omap]. rewrite Hl. simpl. by rewrite Hn.
Qed.

(** A new object linked to [B] finds on [B] what it does not store itself. *)
Lemma linked_user_resolves s B ob ps n v :
  acyclic (heap s) →
  heap s !! B = Some ob →
  props ob !! n = Some v →
  ps !! n = None →
  lookup_chain (heap (with_new s (Obj ps (Some B)))) (next_loc s) n = Some v.
Proof.
  intros Hac HB Hn Hps.
  assert (Hac1 : acyclic (heap (with_new s (Obj ps (Some B))))).
  { apply acyclic_with_new; [|done]. intros q [= <-]. eauto. }
  rewrite (lookup_chain_step _ _ (Obj ps (Some B)) B n Hac1
             (with_new_lookup_new _ _) Hps eq_refl).
  eapply lookup_chain_own; [|done].
  rewrite with_new_lookup_old; eauto.
Qed.

(** What an existing object resolves is not changed by a new object. *)
Lemma lookup_chain_with_new_old s o l n :
  acyclic (heap s) → is_Some (heap s !! l) →
  lookup_chain (heap (with_new s o)) l n = lookup_chain (heap s) l n.
Proof.
  intros Hac Hl. destruct (acyclic_chain _ l Hac Hl) as [ls Hls].
  rewrite (lookup_chain_resolve _ n _ _ Hls).
  rewrite (lookup_chain_resolve _ n _ _ (chain_of_with_new s o _ _ Hls)).
  do 2 f_equal. apply first_defined_agree. intros l' Hl'.
  apply with_new_lookup_old. by eapply chain_of_allocated.
Qed.

(** A new object linked to [B] resolves, for the names it does not store,
    what [B] resolves. *)
Lemma linked_user_lookup s B ps n :
  acyclic (heap s) → is_Some (heap s !! B) → ps !! n = None →
  lookup_chain (heap (with_new s (Obj ps (Some B)))) (next_loc s) n
  = lookup_chain (heap s) B n.
Proof.
  intros Hac HB Hps.
  assert (Hac1 : acyclic (heap (with_new s (Obj ps (Some B))))).
  { apply acyclic_with_new; [|done]. by intros q [= <-]. }
  rewrite (lookup_chain_step _ _ (Obj ps (Some B)) B n Hac1
             (with_new_lookup_new _ _) Hps eq_refl).
  by apply lookup_chain_with_new_old.
Qed.

(** ** Paid users *)

(** The sibling of the factory of lines 395-400: a paid user made by
    [new paidUserCreator] (lines 455-467) stores no [increment] and no
    [sayName], nor does [paidUserCreator.prototype]; both names are found on
    [userCreator.prototype], two links up, and run on the paid user. *)
Lemma Subclassing3_paid_delegates
    s userCreator_prototype paidUserCreator_prototype up pp name z balance :
  acyclic (heap s) →
  heap s !! userCreator_prototype = Some up →
  props up !! "increment" = Some (VFun increment) →
  props up !! "sayName" = Some (VFun sayName) →
  heap s !! paidUserCreator_prototype = Some pp →
  props pp !! "increment" = None →
  props pp !! "sayName" = None →
  proto pp = Some userCreator_prototype →
  (- 2 ^ 53 ≤ z)%Z → (z < 2 ^ 53)%Z →
  let p := next_loc s in
  ∃ s1,
    Subclassing3.new_paidUserCreator paidUserCreator_prototype
      (VStr name) (VNum (Int z)) balance s = Ok p s1
    ∧ own_prop s1 p "increment" = None
    ∧ own_prop s1 p "sayName" = None
    ∧ (∃ s2, call_method p "increment" s1 = Ok VUndef s2
             ∧ only_field_changed s1 s2 p "score" (VNum (Int (z + 1))))
    ∧ call_method p "sayName" s1
      = Ok VUndef (State (heap s1) (console s1 ++ ["I am " +:+ name])).
Proof.
  intros Hac Hup Hinc Hsay Hpp Hpinc Hpsay Hlink Hlo Hhi p.
  eexists. split; [apply Subclassing3_new_paidUserCreator_run|].
  set (o := Obj _ _). set (s1 := with_new s o).
  assert (Hac1 : acyclic (heap s1)).
  { apply acyclic_with_new; [|done]. intros q [= <-]. eauto. }
  assert (Hp : heap s1 !! p = Some o) by apply with_new_lookup_new.
  assert (Hpp1 : heap s1 !! paidUserCreator_prototype = Some pp).
  { unfold s1. rewrite with_new_lookup_old; eauto. }
  assert (Hup1 : heap s1 !! userCreator_prototype = Some up).
  { unfold s1. rewrite with_new_lookup_old; eauto. }
  assert (Hres : ∀ n f, props o !! n = None → props pp !! n = None →
                        props up !! n = Some (VFun f) →
                        lookup_chain (heap s1) p n = Some (VFun f)).
  { intros n f Ho Hn Hf.
    rewrite (lookup_chain_step _ p o _ n Hac1 Hp Ho eq_refl).
    rewrite (lookup_chain_step _ _ pp _ n Hac1 Hpp1 Hn Hlink).
    by eapply lookup_chain_own. }
  split; [unfold s1, p; by rewrite own_prop_with_new|].
  split; [unfold s1, p; by rewrite own_prop_with_new|].
  split.
  - rewrite (call_method_resolved _ _ _ increment) by (done || by apply Hres).
    apply Call_counts_once; try done.
    unfold s1, p. by rewrite own_prop_with_new.
  - rewrite (call_method_resolved _ _ _ sayName) by (done || by apply Hres).
    apply (Call_sayName _ _ (VStr name)); [|done].
    eapply lookup_chain_own; [exact Hp | done].
Qed.

(** ** Users made by the factories count *)

(** Lines 377-382 and 387-389: every user made by [userCreator], linked to
    an object that stores the shared [increment], counts by one. *)
Lemma Subclassing2_user_counts s userFunctions ob name z (n : nat) :
  acyclic (heap s) →
  heap s !! userFunctions = Some ob →
  props ob !! "increment" = Some (VFun increment) →
  (- 2 ^ 53 ≤ z)%Z → (z + Z.of_nat n ≤ 2 ^ 53)%Z →
  ∃ s1,
    Subclassing2.userCreator userFunctions name (VNum (Int z)) s
    = Ok (next_loc s) s1
    ∧ invoke_n (next_loc s) "increment" n s1
      = Ok tt (with_field s1 (next_loc s) "score" (VNum (Int (z + Z.of_nat n)))).
Proof.
  intros Hac HB Hinc Hlo Hhi. eexists.
  split; [apply Subclassing2_userCreator_run|].
  apply (invoke_n_counts _ _ _ increment); try done.
  - by eapply linked_user_resolves.
  - intros s' x. by apply Call_this_counter.
  - by rewrite own_prop_with_new.
Qed.

(** Lines 439-451: the same for [new userCreator(name, score)]. *)
Lemma Subclassing3_user_counts s userCreator_prototype ob name z (n : nat) :
  acyclic (heap s) →
  heap s !! userCreator_prototype = Some ob →
  props ob !! "increment" = Some (VFun increment) →
  (- 2 ^ 53 ≤ z)%Z → (z + Z.of_nat n ≤ 2 ^ 53)%Z →
  ∃ s1,
    Subclassing3.new_userCreator userCreator_prototype name (VNum (Int z)) s
    = Ok (next_loc s) s1
    ∧ invoke_n (next_loc s) "increment" n s1
      = Ok tt (with_field s1 (next_loc s) "score" (VNum (Int (z + Z.of_nat n)))).
Proof.
  intros Hac HB Hinc Hlo Hhi. eexists.
  split; [apply Subclassing3_new_userCreator_run|].
  apply (invoke_n_counts _ _ _ increment); try done.
  - by eapply linked_user_resolves.
  - intros s' x. by apply Call_this_counter.
  - by rewrite own_prop_with_new.
Qed.

(** ** Resolution order *)

(** C1.  Resolution of the name [n] on the entity [e] consults, in order,
    [e]'s own properties, the object [e] is linked to, that object's parent,
    and so on up the single chain of links, and takes the first level that
    stores something under [n] (for the one name [__proto__], the accessor
    of [Object.prototype] answers at its level with the link of [e]).  The
    read leaves the state as it was.  When what is found is a function,
    [e.n()] runs it with [e] itself as [this], at whichever level it was
    found: a counting function adds one to the field of [e] and touches no
    other object, the level that supplied it included, and [sayName] prints
    the name of [e]. *)
Theorem C1_resolution_order (s : state) (e : loc) (n : string) (ls : list loc) :
  resolution_chain (heap s) (Some e) = Some ls →
  (head ls = Some e
   ∧ ∀ i l, ls !! i = Some l → ls !! S i = (heap s !! l) ≫= proto)
  ∧ (n ≠ "__proto__" →
     resolved (heap s) e ls n = default VUndef (first_defined (heap s) ls n))
  ∧ Get e n s = Ok (resolved (heap s) e ls n) s
  ∧ match resolved (heap s) e ls n with
    | VFun f =>
        call_method e n s = Call f (VObj e) s
        ∧ (∀ fld z,
             this_counter f = Some fld →
             own_prop s e fld = Some (VNum (Int z)) →
             (- 2 ^ 53 ≤ z)%Z → (z < 2 ^ 53)%Z →
             ∃ s', call_method e n s = Ok VUndef s'
                   ∧ only_field_changed s s' e fld (VNum (Int (z + 1))))
        ∧ (f = sayName →
           ∀ name, own_prop s e "name" = Some (VStr name) →
             call_method e n s
             = Ok VUndef (State (heap s) (console s ++ ["I am " +:+ name])))
    | _ => call_method e n s = Throw (TypeError (NotAFunction n)) s
    end.
Proof.
  intros Hc%resolution_chain_spec.
  pose proof (Get_chain s e n ls Hc) as Hget.
  split; [by apply chain_of_shape|].
  split; [by apply resolved_data|]. split; [exact Hget|].
  destruct (resolved (heap s) e ls n) as [| | | | |f];
    try (unfold call_method; rewrite bind_unfold, Hget; reflexivity).
  split; [by apply call_method_got|]. split.
  - intros fld z Hf Hown Hlo Hhi. rewrite (call_method_got _ _ _ _ Hget).
    by apply Call_counts_once.
  - intros -> name Hname. rewrite (call_method_got _ _ _ _ Hget).
    apply (Call_sayName _ _ (VStr name)); [|done].
    apply own_prop_Some in Hname as (o & Ho & Hn). by eapply lookup_chain_own.
Qed.

(** Lines 161-170: [user1 = userCreator('Phil', 4)], whose [increment] is
    found one level up, on [userFunctionStore], and counts on [user1]; and
    whose [__proto__] reads as [userFunctionStore]. *)
Lemma C1_witness :
  let s := final_state (run (store ← Solution2.userFunctionStore;
                             Solution2.userCreator store
                               (VStr "Phil") (VNum (Int 4)))) in
  let store := 3%positive in
  let user1 := 4%positive in
  resolution_chain (heap s) (Some user1) = Some [user1; store; object_prototype]
  ∧ own_prop s user1 "increment" = None
  ∧ own_prop s store "increment" = Some (VFun increment)
  ∧ (∃ s', call_method user1 "increment" s = Ok VUndef s'
           ∧ own_prop s' user1 "score" = Some (VNum (Int 5))
           ∧ heap s' !! store = heap s !! store)
  ∧ Get user1 "__proto__" s = Ok (VObj store) s.
Proof.
  split; [vm_compute; reflexivity|]. split; [vm_compute; reflexivity|].
  split; [vm_compute; reflexivity|].
  split.
  - pose proof (C1_resolution_order
      (final_state (run (store ← Solution2.userFunctionStore;
                         Solution2.userCreator store (VStr "Phil") (VNum (Int 4)))))
      4%positive "increment"
      [4%positive; 3%positive; object_prototype]) as H.
    destruct H as (_ & _ & _ & H); [vm_compute; reflexivity|].
    destruct H as (_ & H & _).
    destruct (H "score" 4%Z) as (s' & Hcall & Hown & Hframe & _);
      [reflexivity | vm_compute; reflexivity | lia | lia |].
    exists s'. split; [exact Hcall|]. split; [exact Hown|].
    apply Hframe. discriminate.
  - pose proof (C1_resolution_order
      (final_state (run (store ← Solution2.userFunctionStore;
                         Solution2.userCreator store (VStr "Phil") (VNum (Int 4)))))
      4%positive "__proto__"
      [4%positive; 3%positive; object_prototype]) as H.
    destruct H as (_ & _ & H & _); [vm_compute; reflexivity|].
    exact H.
Defined.

(** ** Counting *)

(** C2, with the bound of a double.  For every base user [e] whose [score] is an integer [z]
    not below -2^53, calling [e.increment()] [n] times with [z + n] not
    above 2^53 succeeds and leaves [e.score] equal to [z + n]: each call
    adds exactly one, and the score never goes down.  Nothing else in the
    state changes.  The count has an upper bound: a score of 2^53 is left at
    2^53 by any number of calls. *)
Theorem C2_increment_n_times (s : state) (e : loc) (f : func) (z : Z) (n : nat) :
  lookup_chain (heap s) e "increment" = Some (VFun f) →
  base_increment e f = true →
  own_prop s e "score" = Some (VNum (Int z)) →
  (- 2 ^ 53 ≤ z)%Z →
  (z + Z.of_nat n ≤ 2 ^ 53)%Z →
  invoke_n e "increment" n s
    = Ok tt (with_field s e "score" (VNum (Int (z + Z.of_nat n))))
  ∧ own_prop (with_field s e "score" (VNum (Int (z + Z.of_nat n)))) e "score"
    = Some (VNum (Int (z + Z.of_nat n)))
  ∧ (z ≤ z + Z.of_nat n)%Z
  ∧ (z = 2 ^ 53 → ∀ k, invoke_n e "increment" k s = Ok tt s)%Z.
Proof.
  intros Hres Hf Hown Hlo Hhi. split; [|split; [|split]].
  - apply (invoke_n_counts _ _ _ f); try done.
    intros s' x. by apply base_increment_counts.
  - apply own_prop_with_field_eq.
    apply own_prop_Some in Hown as (o & -> & _). eauto.
  - lia.
  - intros -> k. apply (invoke_n_stops _ _ _ f "score" (Int (2 ^ 53))); try done.
    intros s' x. by apply base_increment_counts.
Qed.

(** The user of lines 314-329, after the script's own call: score 10. *)
Lemma C2_witness :
  let s := final_state (run Solution4.main) in
  let e := 4%positive in
  (lookup_chain (heap s) e "increment" = Some (VFun increment_class)
   ∧ base_increment e increment_class = true
   ∧ own_prop s e "score" = Some (VNum (Int 10)))
  ∧ invoke_n e "increment" 3 s
    = Ok tt (with_field s e "score" (VNum (Int 13)))
  ∧ own_prop (with_field s e "score" (VNum (Int 13))) e "score"
    = Some (VNum (Int 13)).
Proof.
  split.
  - vm_compute. done.
  - pose proof (C2_increment_n_times (final_state (run Solution4.main)) 4%positive
                  increment_class 10 3) as H.
    destruct H as (H1 & H2 & _);
      [vm_compute; reflexivity | reflexivity | vm_compute; reflexivity
      | lia | lia |].
    split; [exact H1 | exact H2].
Defined.

(** Against C2 as the specification words it ("no upper bound"): at the
    class of lines 314-325 and [new UserCreator('Eva', 9007199254740992)]: a call of
    [increment] returns and leaves the score at 2^53, not at 2^53 + 1. *)
Lemma C2_counterexample :
  let s := final_state (run (p ← Solution4.UserCreator_prototype;
                             Solution4.new_UserCreator p
                               (VStr "Eva") (VNum (Int (2 ^ 53))))) in
  let e := 4%positive in
  (lookup_chain (heap s) e "increment" = Some (VFun increment_class)
   ∧ base_increment e increment_class = true
   ∧ own_prop s e "score" = Some (VNum (Int (2 ^ 53))))
  ∧ returned (invoke_n e "increment" 1 s) = Some tt
  ∧ own_prop (final_state (invoke_n e "increment" 1 s)) e "score"
    = Some (VNum (Int (2 ^ 53)))
  ∧ own_prop (final_state (invoke_n e "increment" 1 s)) e "score"
    ≠ Some (VNum (Int (2 ^ 53 + 1))).
Proof.
  split; [vm_compute; done|].
  split; [vm_compute; reflexivity|]. split; [vm_compute; reflexivity|].
  intros H. vm_compute in H. discriminate H.
Qed.





(** ** Calls with a chosen receiver *)

(** C7, for what each operation does.  For every object [B] on which the name [X] reads as a
    function and every object [R], [B.X.call(R)] runs that function with [R]
    as [this], whatever [R] is linked to.  A counting function
    ([this.fld++]) adds one to [R]'s own field when that field holds an
    integer from -2^53 up to 2^53 - 1, and changes nothing else; [sayName]
    prints the name of [R]; [login] prints its message; the last two change
    no field.  No function of the script changes the link of any object. *)
Theorem C7_call_with_receiver (s : state) (B R : loc) (X : string) (f : func) :
  Get B X s = Ok (VFun f) s →
  Function_call B X (VObj R) s = Call f (VObj R) s
  ∧ (∀ fld z,
       this_counter f = Some fld →
       own_prop s R fld = Some (VNum (Int z)) →
       (- 2 ^ 53 ≤ z)%Z → (z < 2 ^ 53)%Z →
       ∃ s', Function_call B X (VObj R) s = Ok VUndef s'
             ∧ only_field_changed s s' R fld (VNum (Int (z + 1))))
  ∧ (f = sayName →
     ∀ name, own_prop s R "name" = Some (VStr name) →
       Function_call B X (VObj R) s
       = Ok VUndef (State (heap s) (console s ++ ["I am " +:+ name])))
  ∧ (∀ msg, f = login msg →
       Function_call B X (VObj R) s
       = Ok VUndef (State (heap s) (console s ++ [msg])))
  ∧ (∀ l, match Function_call B X (VObj R) s with
          | Ok _ s' | Throw _ s' => proto_of s' l = proto_of s l
          | _ => True
          end).
Proof.
  intros Hres. rewrite (Function_call_got _ _ _ _ _ Hres).
  split; [done|]. split; [|split; [|split]].
  - intros fld z Hf Hown Hlo Hhi. by apply Call_counts_once.
  - intros -> name Hname. apply (Call_sayName _ _ (VStr name)); [|done].
    apply own_prop_Some in Hname as (o & Ho & Hn). by eapply lookup_chain_own.
  - by intros msg ->.
  - intros l. pose proof (Call_footprint f (VObj R) s) as Hfp.
    destruct (Call f (VObj R) s); try done.
    + by apply footprint_proto.
    + simpl in Hfp. by subst.
Qed.

(** Lines 417-427: [obj.increment.call(otherObj)] after [obj.increment()]:
    "otherObj.num now 11". *)
Lemma C7_witness :
  let s := final_state (run (o ← Interlude.obj; other ← Interlude.otherObj;
                             call_method o "increment";; mret (o, other))) in
  let obj := 3%positive in
  let otherObj := 4%positive in
  Get obj "increment" s = Ok (VFun num_increment) s
  ∧ own_prop s otherObj "num" = Some (VNum (Int 10))
  ∧ ∃ s', Function_call obj "increment" (VObj otherObj) s = Ok VUndef s'
          ∧ own_prop s' otherObj "num" = Some (VNum (Int 11))
          ∧ heap s' !! obj = heap s !! obj
          ∧ proto_of s' otherObj = Some (Some object_prototype).
Proof.
  split; [vm_compute; reflexivity|]. split; [vm_compute; reflexivity|].
  pose proof (C7_call_with_receiver
                (final_state (run (o ← Interlude.obj; other ← Interlude.otherObj;
                                   call_method o "increment";; mret (o, other))))
                3%positive 4%positive "increment" num_increment) as H.
  destruct H as (_ & H & _); [vm_compute; reflexivity|].
  destruct (H "num" 10%Z) as (s' & Hcall & Hown & Hothers & _ & Hlinks & _);
    [reflexivity | vm_compute; reflexivity | lia | lia |].
  exists s'. split; [exact Hcall|]. split; [exact Hown|].
  split; [apply Hothers; discriminate|].
  rewrite Hlinks. vm_compute. reflexivity.
Defined.

(** Against C7 as the specification words it ("mutates R's fields", for
    every operation and every entity), two calls.  [obj.increment.call(otherObj)] of lines
    417-424 with [otherObj.num] at 2^53 returns and leaves the state as it
    was.  [userFunctionStore.login.call(user1)] (lines 161-170) prints and
    leaves every object as it was. *)
Lemma C7_counterexample :
  (let s := final_state (run (o ← Interlude.obj; other ← Interlude.otherObj;
                              Put other "num" (VNum (Int (2 ^ 53)));;
                              mret (o, other))) in
   let obj := 3%positive in
   let otherObj := 4%positive in
   Get obj "increment" s = Ok (VFun num_increment) s
   ∧ own_prop s otherObj "num" = Some (VNum (Int (2 ^ 53)))
   ∧ returned (Function_call obj "increment" (VObj otherObj) s) = Some VUndef
   ∧ heap (final_state (Function_call obj "increment" (VObj otherObj) s))
     = heap s)
  ∧ (let s := final_state (run (store ← Solution2.userFunctionStore;
                                Solution2.userCreator store
                                  (VStr "Phil") (VNum (Int 4)))) in
     let store := 3%positive in
     let user1 := 4%positive in
     Get store "login" s = Ok (VFun (login "You are logged!")) s
     ∧ returned (Function_call store "login" (VObj user1) s) = Some VUndef
     ∧ heap (final_state (Function_call store "login" (VObj user1) s))
       = heap s).
Proof.
  split.
  - split; [vm_compute; reflexivity|]. split; [vm_compute; reflexivity|].
    split; vm_compute; reflexivity.
  - split; [vm_compute; reflexivity|]. split; vm_compute; reflexivity.
Qed.

(** ** Closures *)

(** An object that stores the closure over itself counts on itself, however
    it is called. *)
Lemma closure_counts s e z (k : nat) (r : value) :
  own_prop s e "increment" = Some (VFun (increment_closure e)) →
  own_prop s e "score" = Some (VNum (Int z)) →
  (- 2 ^ 53 ≤ z)%Z → (z + Z.of_nat k < 2 ^ 53)%Z →
  counts_on_itself s e z k r.
Proof.
  intros Hinc Hscore Hlo Hhi.
  assert (Hres : lookup_chain (heap s) e "increment"
                 = Some (VFun (increment_closure e))).
  { apply own_prop_Some in Hinc as (o & Hl & Hn). by eapply lookup_chain_own. }
  assert (Halloc : is_Some (heap s !! e)).
  { apply own_prop_Some in Hscore as (o & -> & _). eauto. }
  set (s1 := with_field s e "score" (VNum (Int (z + Z.of_nat k)))).
  assert (Halloc1 : is_Some (heap s1 !! e)).
  { unfold s1, with_field. simpl. by apply lookup_alter_is_Some. }
  exists s1, (with_field s1 e "score" (VNum (Int (z + Z.of_nat k + 1)))).
  split.
  { apply (invoke_n_counts _ _ _ (increment_closure e)); try done; [|lia].
    intros s' x. apply Call_increment_closure. }
  split; [by apply with_field_only|].
  split; [|by apply with_field_only].
  rewrite (Function_call_resolved _ _ _ (increment_closure e)); [|done|].
  - rewrite (Call_increment_closure _ _ _ (Int (z + Z.of_nat k))).
    + rewrite add1_exact; [done | lia | lia].
    + by apply own_prop_with_field_eq.
  - unfold s1. by rewrite lookup_chain_with_field.
Qed.

Lemma new_closure_counts s ps q z (k : nat) (r : value) :
  ps !! "increment" = Some (VFun (increment_closure (next_loc s))) →
  ps !! "score" = Some (VNum (Int z)) →
  (- 2 ^ 53 ≤ z)%Z → (z + Z.of_nat k < 2 ^ 53)%Z →
  counts_on_itself (with_new s (Obj ps q)) (next_loc s) z k r.
Proof.
  intros Hinc Hscore Hlo Hhi. apply closure_counts; try done.
  - by rewrite own_prop_with_new.
  - by rewrite own_prop_with_new.
Qed.

(** C10, with the bound of a double.  A user made by the factory of Solution 1 (lines 78-86),
    and each of the hand-built users before it (lines 21-27, 54-59, 63-68),
    stores an [increment] that names the user itself.  While the score stays
    below 2^53 (and starts at -2^53 or above), calling it [k] times adds [k]
    to that user's score, and a further call with any other receiver [r]
    ([user.increment.call(r)]) again adds one to that same user's score and
    changes nothing else: the supplied receiver is not the one that
    counts. *)
Theorem C10_closure_keeps_its_object
    (s : state) (name : value) (z : Z) (k : nat) (r : value) :
  (- 2 ^ 53 ≤ z)%Z →
  (z + Z.of_nat k < 2 ^ 53)%Z →
  (9 + Z.of_nat k < 2 ^ 53)%Z →
  let e := next_loc s in
  (∃ s1, Solution1.userCreator name (VNum (Int z)) s = Ok e s1
     ∧ own_prop s1 e "increment" = Some (VFun (increment_closure e))
     ∧ counts_on_itself s1 e z k r)
  ∧ (∃ s1, Encapsulation.user1 s = Ok e s1 ∧ counts_on_itself s1 e 4 k r)
  ∧ (∃ s1, Encapsulation.user2 s = Ok e s1 ∧ counts_on_itself s1 e 5 k r)
  ∧ (∃ s1, Encapsulation.user3 s = Ok e s1 ∧ counts_on_itself s1 e 9 k r).
Proof.
  intros Hlo Hhi Hk e. split; [|split; [|split]].
  - eexists. split; [apply Solution1_userCreator_run|].
    split; [by rewrite own_prop_with_new|].
    by apply new_closure_counts.
  - eexists. split; [apply Encapsulation_user1_run|].
    apply new_closure_counts; [done | done | lia | lia].
  - eexists. split; [apply Encapsulation_user2_run|].
    apply new_closure_counts; [done | done | lia | lia].
  - eexists. split; [apply Encapsulation_user3_run|].
    apply new_closure_counts; [done | done | lia | lia].
Qed.

(** Lines 88-90, [user1 = userCreator('Phil', 4)], with two calls of
    [user1.increment()] and then [user1.increment.call(globalThis)]. *)
Lemma C10_witness :
  let e := next_loc initial in
  e = 3%positive
  ∧ ∃ s1, Solution1.userCreator (VStr "Phil") (VNum (Int 4)) initial = Ok e s1
          ∧ counts_on_itself s1 e 4 2 (VObj global_object).
Proof.
  split; [vm_compute; reflexivity|].
  destruct (C10_closure_keeps_its_object initial (VStr "Phil") 4 2
              (VObj global_object)) as [(s1 & Hmk & _ & Hcount) _];
    [lia | lia | lia |].
  exists s1. split; [exact Hmk | exact Hcount].
Defined.

(** Against C10 as the specification words it ("always increments"): at
    [userCreator('Phil', 9007199254740992)] of lines 78-86: a call of the
    user's [increment] returns and leaves the score at 2^53. *)
Lemma C10_counterexample :
  let s := final_state (run (Solution1.userCreator
                               (VStr "Phil") (VNum (Int (2 ^ 53))))) in
  let e := 3%positive in
  (own_prop s e "increment" = Some (VFun (increment_closure e))
   ∧ own_prop s e "score" = Some (VNum (Int (2 ^ 53))))
  ∧ returned (call_method e "increment" s) = Some VUndef
  ∧ own_prop (final_state (call_method e "increment" s)) e "score"
    = Some (VNum (Int (2 ^ 53)))
  ∧ own_prop (final_state (call_method e "increment" s)) e "score"
    ≠ Some (VNum (Int (2 ^ 53 + 1))).
Proof.
  split; [vm_compute; done|].
  split; [vm_compute; reflexivity|]. split; [vm_compute; reflexivity|].
  intros H. vm_compute in H. discriminate H.
Qed.

(** ** Missing operations *)

(** C5.  When no level of [e]'s chain stores anything under [n], the call
    [e.n()] fails with the "not a function" TypeError, handed to the caller
    as the outcome of the call, and the state is exactly as before. *)
Theorem C5_missing_operation (s : state) (e : loc) (n : string) (ls : list loc) :
  resolution_chain (heap s) (Some e) = Some ls →
  first_defined (heap s) ls n = None →
  call_method e n s = Throw (TypeError (NotAFunction n)) s.
Proof.
  intros Hc%resolution_chain_spec Hnone.
  unfold call_method. rewrite bind_unfold, (Get_chain s e n ls Hc).
  pose proof (resolved_missing (heap s) e ls n) as Hv.
  destruct (resolved (heap s) e ls n) as [| | | | |f]; try done.
  by destruct (Hv f Hnone).
Qed.

(** [noSuchOp] on the base user of line 451 and on the paid user of line 467. *)
Lemma C5_witness :
  let s := final_state (run Subclassing3.upto_467) in
  let user1 := 5%positive in
  let paidUser1 := 8%positive in
  call_method user1 "noSuchOp" s = Throw (TypeError (NotAFunction "noSuchOp")) s
  ∧ call_method paidUser1 "noSuchOp" s
    = Throw (TypeError (NotAFunction "noSuchOp")) s.
Proof.
  split.
  - apply (C5_missing_operation _ 5%positive "noSuchOp"
             [5%positive; 3%positive; object_prototype]);
      vm_compute; reflexivity.
  - apply (C5_missing_operation _ 8%positive "noSuchOp"
             [8%positive; 7%positive; 3%positive; object_prototype]);
      vm_compute; reflexivity.
Defined.

(** ** Cyclic links *)

(** C6.  On a heap whose chains all end: linking an object [o] to a parent
    [p] whose chain passes through [o] ([p] is [o] itself or has [o] as an
    ancestor) fails, at the moment the link is requested, with the
    "cyclic" TypeError and changes nothing; every other request to link
    succeeds and leaves all chains ending, as do object creation, property
    assignment and every call of a function of the script; and so every
    property read, the walk up the single chain of links, returns. *)
Theorem C6_cyclic_extension_rejected (s : state) :
  acyclic (heap s) →
  (∀ o p lp,
     is_Some (heap s !! o) →
     resolution_chain (heap s) p = Some lp →
     o ∈ lp →
     Object_setPrototypeOf o p s = Throw (TypeError CyclicProto) s)
  ∧ (∀ o p,
       is_Some (heap s !! o) →
       (∀ q, p = Some q → is_Some (heap s !! q)) →
       match Object_setPrototypeOf o p s with
       | Ok _ s' => acyclic (heap s')
       | Throw e s' => e = TypeError CyclicProto ∧ s' = s
       | _ => False
       end)
  ∧ (∀ p,
       (∀ q, p = Some q → is_Some (heap s !! q)) →
       match Object_create p s with
       | Ok _ s' => acyclic (heap s')
       | _ => False
       end)
  ∧ (∀ l n v,
       match Put l n v s with
       | Ok _ s' => acyclic (heap s')
       | _ => True
       end)
  ∧ (∀ f v,
       match Call f v s with
       | Ok _ s' | Throw _ s' => acyclic (heap s')
       | _ => True
       end)
  ∧ (∀ l n, ∃ v, Get l n s = Ok v s).
Proof.
  intros Hac. repeat split.
  - intros o p lp [ob Ho] Hp%resolution_chain_spec Hin.
    rewrite (Object_setPrototypeOf_run _ _ _ _ _ Ho Hp).
    destruct (decide (proto ob = p)) as [<-|_].
    + by destruct (chain_of_head_fresh _ _ _ _ Ho Hp).
    + destruct (decide (o = object_prototype)); [done|].
      by rewrite bool_decide_eq_true_2.
  - intros o p Ho Hp. by apply Object_setPrototypeOf_acyclic.
  - intros p Hp. unfold Object_create, alloc. rewrite alloc_rec_run.
    by apply acyclic_with_new.
  - intros l n v. by apply Put_acyclic.
  - intros f v. pose proof (Call_footprint f v s) as Hfp.
    destruct (Call f v s); simpl in Hfp; try done.
    + by eapply acyclic_footprint.
    + by subst.
  - intros l n. by apply Get_terminates.
Qed.

(** Lines 402-408 link [paidUserFunctions] to [userFunctions]; the reverse
    link, and a link of [userFunctions] to itself, are refused. *)
Lemma C6_witness :
  let s := final_state (run Subclassing2.upto_408) in
  let userFunctions := 3%positive in
  let paidUserFunctions := 5%positive in
  acyclic (heap s)
  ∧ Object_setPrototypeOf userFunctions (Some paidUserFunctions) s
    = Throw (TypeError CyclicProto) s
  ∧ Object_setPrototypeOf userFunctions (Some userFunctions) s
    = Throw (TypeError CyclicProto) s
  ∧ ∃ v, Get paidUserFunctions "increment" s = Ok v s.
Proof.
  assert (Hac : acyclic (heap (final_state (run Subclassing2.upto_408)))).
  { apply (bool_decide_unpack _). vm_compute. exact I. }
  split; [exact Hac|].
  destruct (C6_cyclic_extension_rejected _ Hac) as (Hcyc & _ & _ & _ & _ & Hget).
  split; [|split].
  - apply (Hcyc 3%positive (Some 5%positive)
             [5%positive; 3%positive; object_prototype]).
    + vm_compute. eauto.
    + vm_compute. reflexivity.
    + apply (bool_decide_unpack _). vm_compute. exact I.
  - apply (Hcyc 3%positive (Some 3%positive) [3%positive; object_prototype]).
    + vm_compute. eauto.
    + vm_compute. reflexivity.
    + apply (bool_decide_unpack _). vm_compute. exact I.
  - apply Hget.
Defined.

(** ** The plain inner function *)

(** C8 at lines 262-280.  After
    [user1 = new UserCreator('Eva', 9); user1.increment()], with the plain
    inner function of lines 267-272, [user1.score] is still 9 and the global
    object has received a [score] of NaN: the nested call did not run with
    [user1] as its receiver.  So it is not true that every function of the
    script with a nested call counts on its receiver. *)
Theorem C8_plain_inner_function_loses_receiver :
  (let r := run InnerFunction.main_plain in
   let user1 := 4%positive in
   returned r = Some (3%positive, user1)
   ∧ own_prop (final_state r) user1 "score" = Some (VNum (Int 9))
   ∧ own_prop (final_state r) global_object "score" = Some (VNum NaN))
  ∧ ¬ (∀ f e s z,
         nests f = true →
         own_prop s e "score" = Some (VNum (Int z)) →
         Call f (VObj e) s
         = Ok VUndef (with_field s e "score" (VNum (Int (z + 1))))).
Proof.
  split.
  - split; [|split]; vm_compute; reflexivity.
  - intros H.
    specialize (H increment_add1_plain 4%positive
      (final_state (run (p ← InnerFunction.UserCreator_prototype_plain;
                         InnerFunction.new_UserCreator p
                           (VStr "Eva") (VNum (Int 9)))))
      9%Z eq_refl).
    apply (f_equal (λ r, own_prop (final_state r) 4%positive "score")) in H.
    + vm_compute in H. discriminate H.
    + vm_compute. reflexivity.
Qed.

(** ** Shared behaviour *)

(** C9.  The factories of the shared-behaviour solutions (lines 154-159,
    377-382, 451, 467) return a new object that holds only its fields and is
    linked, by reference, to the one behaviour object of its kind; every
    object that existed before, the behaviour objects included, is exactly
    as it was.  And a call of any function of the script, on any receiver,
    leaves the operations and the parent link of every behaviour object as
    they were (a behaviour object stores no operation under the name of a
    counted field). *)
Theorem C9_behaviours_shared_and_fixed (s : state) :
  (∀ store name score,
     Solution2.userCreator store name score s
     = Ok (next_loc s)
          (with_new s (Obj (<[ "score" := score ]> (<[ "name" := name ]> ∅))
                           (Some store))))
  ∧ (∀ userFunctions name score,
       Subclassing2.userCreator userFunctions name score s
       = Ok (next_loc s)
            (with_new s (Obj (<[ "score" := score ]> (<[ "name" := name ]> ∅))
                             (Some userFunctions))))
  ∧ (∀ userCreator_prototype name score,
       Subclassing3.new_userCreator userCreator_prototype name score s
       = Ok (next_loc s)
            (with_new s (Obj (<[ "score" := score ]> (<[ "name" := name ]> ∅))
                             (Some userCreator_prototype))))
  ∧ (∀ paidUserCreator_prototype name score balance,
       Subclassing3.new_paidUserCreator paidUserCreator_prototype
         name score balance s
       = Ok (next_loc s)
            (with_new s (Obj (<[ "accountBalance" := balance ]>
                              (<[ "score" := score ]> (<[ "name" := name ]> ∅)))
                             (Some paidUserCreator_prototype))))
  ∧ (∀ o B, is_Some (heap s !! B) → heap (with_new s o) !! B = heap s !! B)
  ∧ (∀ f v B o,
       heap s !! B = Some o →
       keeps_no_counter o = true →
       match Call f v s with
       | Ok _ s' | Throw _ s' =>
           ∃ o', heap s' !! B = Some o' ∧ ops_of o' = ops_of o ∧ proto o' = proto o
       | _ => True
       end).
Proof.
  split; [intros; apply Solution2_userCreator_run|].
  split; [intros; apply Subclassing2_userCreator_run|].
  split; [intros; apply Subclassing3_new_userCreator_run|].
  split; [intros; apply Subclassing3_new_paidUserCreator_run|].
  split; [intros; by apply with_new_lookup_old|].
  intros f v B o HB Hkeep. pose proof (Call_footprint f v s) as Hfp.
  destruct (Call f v s); simpl in Hfp; try done.
  - by eapply footprint_behaviour.
  - subst. eauto.
Qed.

(** After lines 383-408: a user made by [userCreator] is linked to
    [userFunctions]; calling [increment] with [userFunctions] itself as the
    receiver leaves its operations and its link as they were. *)
Lemma C9_witness :
  let s := final_state (run Subclassing2.upto_408) in
  let uf := Obj {[ "sayName" := VFun sayName; "increment" := VFun increment ]}
                (Some object_prototype) in
  heap s !! 3%positive = Some uf
  ∧ keeps_no_counter uf = true
  ∧ proto_of (final_state (Subclassing2.userCreator 3%positive
                             (VStr "Julia") (VNum (Int 5)) s))
             (next_loc s) = Some (Some 3%positive)
  ∧ match Call increment (VObj 3%positive) s with
    | Ok _ s' | Throw _ s' =>
        ∃ o', heap s' !! 3%positive = Some o'
              ∧ ops_of o' = ops_of uf ∧ proto o' = proto uf
    | _ => True
    end.
Proof.
  split; [vm_compute; reflexivity|]. split; [vm_compute; reflexivity|].
  pose proof (C9_behaviours_shared_and_fixed
                (final_state (run Subclassing2.upto_408)))
    as (_ & Hmk & _ & _ & _ & Hcall).
  split.
  - rewrite Hmk. unfold proto_of. simpl. by rewrite lookup_insert_eq.
  - apply Hcall; vm_compute; reflexivity.
Defined.

(** ** The paid factory of Solution 2 *)

(** C4 at lines 395-400.  [paidUserCreator(paidName, paidScore,
    accountBalance)] of the Solution 2 style never returns a paid user: for
    every input it makes the base user and then throws the ReferenceError
    for [newUserpaid]; the object it leaves behind is linked to
    [userFunctions], not to [paidUserFunctions], and has no
    [accountBalance].  Line 409, [paidUserCreator('Alyssa', 8, 25)], is one
    such call. *)
Theorem C4_paid_factory_of_solution2_throws
    (s : state) (userFunctions paidUserFunctions : loc)
    (name score balance : value) :
  (∃ s', Subclassing2.paidUserCreator userFunctions paidUserFunctions
           name score balance s
         = Throw (ReferenceError "newUserpaid") s'
         ∧ proto_of s' (next_loc s) = Some (Some userFunctions)
         ∧ own_prop s' (next_loc s) "accountBalance" = None)
  ∧ thrown (run Subclassing2.main) = Some (ReferenceError "newUserpaid")
  ∧ console (final_state (run Subclassing2.main)) = ["I am Phil"].
Proof.
  split.
  - eexists. split; [apply Subclassing2_paidUserCreator_run|].
    split.
    + unfold proto_of. by rewrite with_new_lookup_new.
    + by rewrite own_prop_with_new.
  - split; vm_compute; reflexivity.
Qed.

(** ** A field found further up *)

(** X1.  A counting function ([this.fld++]) run on a receiver that does not
    store [fld] itself but finds an integer [z] from -2^53 up to 2^53 - 1
    further up its chain writes [z + 1] as the receiver's own field: every
    other object, the one that supplied [z] included, is exactly as it was,
    and from then on the receiver reads its own value. *)
Theorem inherited_counter_is_written_on_the_receiver
    (s : state) (e : loc) (f : func) (fld : string) (z : Z) :
  this_counter f = Some fld →
  is_Some (heap s !! e) →
  own_prop s e fld = None →
  lookup_chain (heap s) e fld = Some (VNum (Int z)) →
  (- 2 ^ 53 ≤ z)%Z → (z < 2 ^ 53)%Z →
  ∃ s',
    Call f (VObj e) s = Ok VUndef s'
    ∧ own_prop s' e fld = Some (VNum (Int (z + 1)))
    ∧ lookup_chain (heap s') e fld = Some (VNum (Int (z + 1)))
    ∧ (∀ l, l ≠ e → heap s' !! l = heap s !! l)
    ∧ console s' = console s.
Proof.
  intros Hf He Hown Hz Hlo Hhi. exists (with_field s e fld (VNum (Int (z + 1)))).
  split.
  { rewrite (counting_reads_through _ _ _ fld (VNum (Int z)) (Int z)); try done.
    by rewrite add1_exact. }
  assert (Hnew : own_prop (with_field s e fld (VNum (Int (z + 1)))) e fld
                 = Some (VNum (Int (z + 1)))) by by apply own_prop_with_field_eq.
  split; [done|]. split.
  - apply own_prop_Some in Hnew as (o & Ho & Hn). by eapply lookup_chain_own.
  - split; [|done]. intros l Hl. by apply with_field_other.
Qed.

(** A store that itself carries a score of 7, and a user linked to it. *)
Lemma inherited_counter_witness :
  let s := final_state (run (store ← Solution2.functionScore;
                             Put store "score" (VNum (Int 7));;
                             Solution2.user1_linked store)) in
  let store := 3%positive in
  let user1 := 4%positive in
  own_prop s user1 "score" = None
  ∧ ∃ s', Call increment (VObj user1) s = Ok VUndef s'
          ∧ own_prop s' user1 "score" = Some (VNum (Int 8))
          ∧ heap s' !! store = heap s !! store.
Proof.
  split; [vm_compute; reflexivity|].
  destruct (inherited_counter_is_written_on_the_receiver
              (final_state (run (store ← Solution2.functionScore;
                                 Put store "score" (VNum (Int 7));;
                                 Solution2.user1_linked store)))
              4%positive increment "score" 7)
    as (s' & Hcall & Hown & _ & Hframe & _).
  - reflexivity.
  - vm_compute. eauto.
  - vm_compute. reflexivity.
  - vm_compute. reflexivity.
  - lia.
  - lia.
  - exists s'. split; [exact Hcall|]. split; [exact Hown|].
    apply Hframe. discriminate.
Defined.

(** X2.  A counting method called on a receiver that has its field nowhere
    on its chain (the linked but empty [user1] of line 141) does not fail: the
    first call stores NaN as the receiver's own field, which is what the
    receiver reads from then on, and every further call leaves the state at
    that.  Nothing else changes. *)
Theorem missing_counter_becomes_NaN
    (s : state) (e : loc) (n : string) (f : func) (fld : string) (k : nat) :
  n ≠ "__proto__" →
  lookup_chain (heap s) e n = Some (VFun f) →
  n ≠ fld →
  this_counter f = Some fld →
  is_Some (heap s !! e) →
  lookup_chain (heap s) e fld = Some VUndef →
  ∃ s',
    invoke_n e n (S k) s = Ok tt s'
    ∧ only_field_changed s s' e fld (VNum NaN)
    ∧ lookup_chain (heap s') e fld = Some (VNum NaN).
Proof.
  intros Hproto Hres Hne Hf He Hmiss.
  exists (with_field s e fld (VNum NaN)).
  assert (Hown : own_prop (with_field s e fld (VNum NaN)) e fld
                 = Some (VNum NaN)) by by apply own_prop_with_field_eq.
  split; [|split; [by apply with_field_only|]].
  - cbn [invoke_n].
    rewrite bind_unfold, (call_method_resolved _ _ _ _ Hproto Hres).
    rewrite (counting_reads_through _ _ _ fld VUndef NaN Hf He Hmiss eq_refl).
    cbn [add1]. apply (invoke_n_stops _ _ _ f fld NaN); try done.
    + by rewrite lookup_chain_with_field.
    + intros s' x. by apply Call_this_counter.
  - apply own_prop_Some in Hown as (o & Ho & Hn). by eapply lookup_chain_own.
Qed.

(** Lines 117-141: [user1 = Object.create(functionScore)], then three calls
    of [user1.increment()]. *)
Lemma missing_counter_witness :
  let s := final_state (run (store ← Solution2.functionScore;
                             Solution2.user1_linked store)) in
  let user1 := 4%positive in
  lookup_chain (heap s) user1 "score" = Some VUndef
  ∧ ∃ s', invoke_n user1 "increment" 3 s = Ok tt s'
          ∧ own_prop s' user1 "score" = Some (VNum NaN).
Proof.
  split; [vm_compute; reflexivity|].
  destruct (missing_counter_becomes_NaN
              (final_state (run (store ← Solution2.functionScore;
                                 Solution2.user1_linked store)))
              4%positive "increment" increment "score" 2)
    as (s' & Hrun & (Hown & _) & _).
  - discriminate.
  - vm_compute. reflexivity.
  - discriminate.
  - reflexivity.
  - vm_compute. eauto.
  - vm_compute. reflexivity.
  - exists s'. split; [exact Hrun | exact Hown].
Defined.

(** ** Printing a name *)

(** X3.  For every user made by [userCreator(name, score)] (lines 377-382)
    or by [new userCreator(name, score)] (lines 439-451), linked to an object
    that stores [sayName], [user.sayName()] appends exactly "I am " followed
    by the name as a string to the output and changes no object.  The name
    may be any value that prints without running code and digit for digit:
    a string, an integer up to 2^53 in size, [null], or [undefined] for an
    argument left out ("I am undefined"). *)
Theorem sayName_of_a_new_user
    (s : state) (B : loc) (ob : obj) (name score : value) (t : string) :
  acyclic (heap s) →
  heap s !! B = Some ob →
  props ob !! "sayName" = Some (VFun sayName) →
  to_string name = Some t →
  (∃ s1, Subclassing2.userCreator B name score s = Ok (next_loc s) s1
         ∧ call_method (next_loc s) "sayName" s1
           = Ok VUndef (State (heap s1) (console s1 ++ ["I am " +:+ t])))
  ∧ (∃ s1, Subclassing3.new_userCreator B name score s = Ok (next_loc s) s1
           ∧ call_method (next_loc s) "sayName" s1
             = Ok VUndef (State (heap s1) (console s1 ++ ["I am " +:+ t]))).
Proof.
  intros Hac HB Hsay Ht.
  assert (Hgen : ∀ s1,
    s1 = with_new s (Obj (<[ "score" := score ]> (<[ "name" := name ]> ∅)) (Some B)) →
    call_method (next_loc s) "sayName" s1
    = Ok VUndef (State (heap s1) (console s1 ++ ["I am " +:+ t]))).
  { intros s1 ->.
    rewrite (call_method_resolved _ _ "sayName" sayName);
      [|done|by eapply linked_user_resolves].
    apply (Call_sayName _ _ name); [|done].
    eapply lookup_chain_own; [apply with_new_lookup_new | done]. }
  split; eexists; (split; [|by apply Hgen]).
  - apply Subclassing2_userCreator_run.
  - apply Subclassing3_new_userCreator_run.
Qed.

(** After lines 383-390: [userCreator()] with both arguments left out. *)
Lemma sayName_witness :
  let s := final_state (run Subclassing2.userFunctions_literal) in
  let userFunctions := 3%positive in
  acyclic (heap s)
  ∧ ∃ s1, Subclassing2.userCreator userFunctions VUndef VUndef s
          = Ok (next_loc s) s1
          ∧ call_method (next_loc s) "sayName" s1
            = Ok VUndef (State (heap s1) (console s1 ++ ["I am undefined"])).
Proof.
  assert (Hac : acyclic (heap (final_state (run Subclassing2.userFunctions_literal)))).
  { apply (bool_decide_unpack _). vm_compute. exact I. }
  split; [exact Hac|].
  refine (proj1 (sayName_of_a_new_user _ 3%positive
            (Obj {[ "sayName" := VFun sayName; "increment" := VFun increment ]}
                 (Some object_prototype))
            VUndef VUndef "undefined" Hac _ _ _)); vm_compute; reflexivity.
Defined.

(** ** [login] *)

(** X4.  For every user made by the factory of lines 154-159 and linked to a
    store that keeps [login], [user.login()] appends the store's message to
    the output and changes no object; and so does [user.login.call(r)] for
    any receiver [r] whatever: [login] never looks at [this]. *)
Theorem login_prints_and_changes_no_object
    (s : state) (store : loc) (ob : obj) (msg : string) (name score r : value) :
  acyclic (heap s) →
  heap s !! store = Some ob →
  props ob !! "login" = Some (VFun (login msg)) →
  ∃ s1, Solution2.userCreator store name score s = Ok (next_loc s) s1
        ∧ call_method (next_loc s) "login" s1
          = Ok VUndef (State (heap s1) (console s1 ++ [msg]))
        ∧ Function_call (next_loc s) "login" r s1
          = Ok VUndef (State (heap s1) (console s1 ++ [msg])).
Proof.
  intros Hac HB Hlogin. eexists. split; [apply Solution2_userCreator_run|].
  set (s1 := with_new _ _).
  assert (Hres : lookup_chain (heap s1) (next_loc s) "login" = Some (VFun (login msg)))
    by by eapply linked_user_resolves.
  split.
  - by rewrite (call_method_resolved _ _ "login" (login msg)).
  - by rewrite (Function_call_resolved _ _ "login" (login msg)).
Qed.

(** After line 168: a user of [userFunctionStore], logged in through
    [.call(undefined)]. *)
Lemma login_witness :
  let s := final_state (run Solution2.userFunctionStore) in
  let store := 3%positive in
  acyclic (heap s)
  ∧ ∃ s1, Solution2.userCreator store (VStr "Phil") (VNum (Int 4)) s
          = Ok (next_loc s) s1
          ∧ Function_call (next_loc s) "login" VUndef s1
            = Ok VUndef (State (heap s1) (console s1 ++ ["You are logged!"])).
Proof.
  assert (Hac : acyclic (heap (final_state (run Solution2.userFunctionStore)))).
  { apply (bool_decide_unpack _). vm_compute. exact I. }
  split; [exact Hac|].
  destruct (login_prints_and_changes_no_object _ 3%positive
              (Obj {[ "increment" := VFun increment;
                      "login" := VFun (login "You are logged!") ]}
                   (Some object_prototype))
              "You are logged!" (VStr "Phil") (VNum (Int 4)) VUndef Hac)
    as (s1 & Hmk & _ & Hcall); [vm_compute; reflexivity..|].
  exists s1. by split.
Defined.

(** ** [new] and the factory *)

(** X5.  [new userCreator(name, score)] with the constructor of Solution 3
    (lines 230-233), with the one of the inner-function section, with the
    class of Solution 4 (lines 314-318) and with the constructor of lines
    439-442 does, for every prototype, every pair of arguments and every
    state, exactly what the hand-written factory of Solution 2 (lines
    154-159) does with that prototype as its store: the same new object, the
    same link, the same two fields, the same result. *)
Theorem new_does_what_the_factory_does
    (s : state) (prototype : loc) (name score : value) :
  Solution3.new_userCreator prototype name score s
  = Solution2.userCreator prototype name score s
  ∧ InnerFunction.new_UserCreator prototype name score s
    = Solution2.userCreator prototype name score s
  ∧ Solution4.new_UserCreator prototype name score s
    = Solution2.userCreator prototype name score s
  ∧ Subclassing3.new_userCreator prototype name score s
    = Solution2.userCreator prototype name score s.
Proof.
  rewrite Solution2_userCreator_run.
  split; [|split; [|split]].
  - unfold Solution3.new_userCreator, construct, alloc. mstep.
    by rewrite bind_unfold, constructor_body_run.
  - unfold InnerFunction.new_UserCreator, construct, alloc. mstep.
    rewrite bind_unfold.
    change (InnerFunction.UserCreator) with (Solution3.userCreator).
    by rewrite constructor_body_run.
  - unfold Solution4.new_UserCreator, construct, alloc. mstep.
    by rewrite bind_unfold, class_constructor_body_run.
  - apply Subclassing3_new_userCreator_run.
Qed.

(** X6.  The constructor of Solution 3 called without [new]
    ([userCreator(name, score)], the mistake the capital-letter convention
    of lines 252-253 guards against) makes no object: it writes [name] and
    [score] on the global object and returns [undefined]. *)
Theorem constructor_without_new_writes_the_global_object
    (s : state) (name score : value) :
  is_Some (heap s !! global_object) →
  Solution3.userCreator VUndef name score s
  = Ok VUndef (with_field (with_field s global_object "name" name)
                          global_object "score" score)
  ∧ dom (heap (with_field (with_field s global_object "name" name)
                          global_object "score" score)) = dom (heap s)
  ∧ own_prop (with_field (with_field s global_object "name" name)
                         global_object "score" score) global_object "name"
    = Some name.
Proof.
  intros Hg. split; [|split].
  - unfold Solution3.userCreator. rewrite bind_unfold. cbn [sloppy_this].
    rewrite ret_run. cbv beta iota.
    rewrite bind_unfold, (Put_allocated _ _ "name") by done. cbv beta iota.
    rewrite bind_unfold, (Put_allocated _ _ "score"); [done | done |].
    unfold with_field. simpl. by apply lookup_alter_is_Some.
  - unfold with_field. simpl. by rewrite !dom_alter_L.
  - rewrite own_prop_with_field_ne by (right; discriminate).
    by apply own_prop_with_field_eq.
Qed.

(** [userCreator('Eva', 9)] without [new], in the initial state. *)
Lemma constructor_without_new_witness :
  is_Some (heap initial !! global_object)
  ∧ Solution3.userCreator VUndef (VStr "Eva") (VNum (Int 9)) initial
    = Ok VUndef (with_field (with_field initial global_object "name" (VStr "Eva"))
                            global_object "score" (VNum (Int 9))).
Proof.
  assert (Hg : is_Some (heap initial !! global_object)) by (vm_compute; eauto).
  split; [exact Hg|].
  exact (proj1 (constructor_without_new_writes_the_global_object
                  initial (VStr "Eva") (VNum (Int 9)) Hg)).
Defined.

(** ** Two users of one store *)

(** X7.  Two users made one after the other by the factory of lines 154-159
    from the same store are two different objects linked to that one store;
    [k] calls of [increment] on the first, whose score starts at -2^53 or
    above and stays at 2^53 or below, add [k] to its score and leave the
    second user and the store exactly as they were made (lines 170-172, for
    any names, such scores and number of calls). *)
Theorem users_of_one_store_are_independent
    (s : state) (store : loc) (ob : obj) (n1 n2 : value) (z1 z2 : Z) (k : nat) :
  acyclic (heap s) →
  heap s !! store = Some ob →
  props ob !! "increment" = Some (VFun increment) →
  (- 2 ^ 53 ≤ z1)%Z →
  (z1 + Z.of_nat k ≤ 2 ^ 53)%Z →
  ∃ u1 u2 s',
    (u1 ← Solution2.userCreator store n1 (VNum (Int z1));
     u2 ← Solution2.userCreator store n2 (VNum (Int z2));
     invoke_n u1 "increment" k;;
     mret (u1, u2)) s = Ok (u1, u2) s'
    ∧ u1 ≠ u2
    ∧ own_prop s' u1 "score" = Some (VNum (Int (z1 + Z.of_nat k)))
    ∧ heap s' !! u2
      = Some (Obj (<[ "score" := VNum (Int z2) ]> (<[ "name" := n2 ]> ∅))
                  (Some store))
    ∧ proto_of s' u1 = Some (Some store)
    ∧ heap s' !! store = Some ob.
Proof.
  intros Hac Hstore Hinc Hlo Hhi.
  set (o1 := Obj (<[ "score" := VNum (Int z1) ]> (<[ "name" := n1 ]> ∅)) (Some store)).
  set (o2 := Obj (<[ "score" := VNum (Int z2) ]> (<[ "name" := n2 ]> ∅)) (Some store)).
  set (s1 := with_new s o1). set (s2 := with_new s1 o2).
  set (u1 := next_loc s). set (u2 := next_loc s1).
  assert (Hu1 : heap s1 !! u1 = Some o1) by apply with_new_lookup_new.
  assert (Hne : u1 ≠ u2).
  { intros Heq. pose proof (next_loc_fresh s1) as Hfresh.
    fold u2 in Hfresh. rewrite <-Heq, Hu1 in Hfresh. done. }
  assert (Hstore_ne : store ≠ u1).
  { intros Heq. rewrite Heq in Hstore. unfold u1 in Hstore.
    by rewrite next_loc_fresh in Hstore. }
  assert (Hac1 : acyclic (heap s1)).
  { apply acyclic_with_new; [|done]. intros q [= <-]. eauto. }
  assert (Hstore1 : heap s1 !! store = Some ob).
  { unfold s1. rewrite with_new_lookup_old; eauto. }
  assert (Hu1' : heap s2 !! u1 = Some o1).
  { unfold s2. rewrite with_new_lookup_old; eauto. }
  assert (Hres : lookup_chain (heap s2) u1 "increment" = Some (VFun increment)).
  { unfold s2. rewrite lookup_chain_with_new_old by eauto.
    by eapply linked_user_resolves. }
  assert (Hscore : own_prop s2 u1 "score" = Some (VNum (Int z1))).
  { apply own_prop_Some. exists o1. by split. }
  exists u1, u2, (with_field s2 u1 "score" (VNum (Int (z1 + Z.of_nat k)))).
  split.
  - rewrite bind_unfold, Solution2_userCreator_run. cbv beta iota.
    rewrite bind_unfold, Solution2_userCreator_run. cbv beta iota.
    rewrite bind_unfold.
    fold o1 s1 u1 o2 s2 u2.
    rewrite (invoke_n_counts s2 u1 "increment" increment "score" z1 k);
      try done.
    intros s' x. by apply Call_this_counter.
  - split; [done|]. split; [apply own_prop_with_field_eq; eauto|].
    split; [rewrite with_field_other by done; apply with_new_lookup_new|].
    split.
    + rewrite proto_of_with_field. unfold proto_of. by rewrite Hu1'.
    + rewrite with_field_other by done.
      unfold s2. rewrite with_new_lookup_old; eauto.
Qed.

(** Lines 161-172 with three calls instead of one. *)
Lemma two_users_witness :
  let s := final_state (run Solution2.userFunctionStore) in
  let store := 3%positive in
  acyclic (heap s)
  ∧ ∃ user1 user2 s',
      (u1 ← Solution2.userCreator store (VStr "Phil") (VNum (Int 4));
       u2 ← Solution2.userCreator store (VStr "Julia") (VNum (Int 5));
       invoke_n u1 "increment" 3;;
       mret (u1, u2)) s = Ok (user1, user2) s'
      ∧ user1 ≠ user2
      ∧ own_prop s' user1 "score" = Some (VNum (Int 7)).
Proof.
  assert (Hac : acyclic (heap (final_state (run Solution2.userFunctionStore)))).
  { apply (bool_decide_unpack _). vm_compute. exact I. }
  split; [exact Hac|].
  destruct (users_of_one_store_are_independent _ 3%positive
              (Obj {[ "increment" := VFun increment;
                      "login" := VFun (login "You are logged!") ]}
                   (Some object_prototype))
              (VStr "Phil") (VStr "Julia") 4 5 3 Hac)
    as (u1 & u2 & s' & Hrun & Hne & Hscore & _);
    [vm_compute; reflexivity | vm_compute; reflexivity | lia | lia |].
  exists u1, u2, s'. by split; [|split].
Defined.

(** ** A link that is accepted *)

(** X8.  [Object.setPrototypeOf(o, q)] on an object [o] other than
    [Object.prototype] that is not on the chain of [q] (line 408:
    [paidUserFunctions] and [userFunctions]) is accepted: [o] keeps its own
    properties and is now linked to [q], no other object changes, every
    name [o] does not store itself now reads on [o] as it reads on [q],
    [o.__proto__] reads as [q] (when [q] inherits the accessor and [o] does
    not shadow it), and asking for the same link again changes nothing. *)
Theorem accepted_link_takes_effect
    (s : state) (o q : loc) (ob : obj) (lp : list loc) (n : string) :
  acyclic (heap s) →
  heap s !! o = Some ob →
  o ≠ object_prototype →
  proto ob ≠ Some q →
  resolution_chain (heap s) (Some q) = Some lp →
  o ∉ lp →
  n ≠ "__proto__" →
  props ob !! n = None →
  ∃ s',
    Object_setPrototypeOf o (Some q) s = Ok (VObj o) s'
    ∧ heap s' !! o = Some (Obj (props ob) (Some q))
    ∧ (∀ l, l ≠ o → heap s' !! l = heap s !! l)
    ∧ (∃ v, Get q n s = Ok v s ∧ Get o n s' = Ok v s')
    ∧ (props ob !! "__proto__" = None →
       inherits_accessor (heap s) q = Some true →
       Get o "__proto__" s' = Ok (VObj q) s')
    ∧ Object_setPrototypeOf o (Some q) s' = Ok (VObj o) s'.
Proof.
  intros Hac Ho Hnot_op Hlink Hlp%resolution_chain_spec Hnot Hproto Hn.
  exists (State (alter (set_proto (Some q)) o (heap s)) (console s)).
  set (h' := alter (set_proto (Some q)) o (heap s)).
  assert (Ho' : h' !! o = Some (Obj (props ob) (Some q))).
  { unfold h'. by rewrite lookup_alter_eq, Ho. }
  assert (Hac' : acyclic h') by by eapply acyclic_relink.
  assert (Hlp' : chain_of h' (Some q) lp)
    by exact (chain_of_change_outside _ (fmap (set_proto (Some q))) _ _ _ Hlp Hnot).
  assert (Hsame : ∀ l, l ∈ lp → h' !! l = heap s !! l).
  { intros l Hl. apply lookup_alter_ne. by intros <-. }
  assert (Hchain : chain_of h' (Some o) (o :: lp)) by by econstructor.
  split.
  { rewrite (Object_setPrototypeOf_run _ _ _ _ _ Ho Hlp).
    rewrite decide_False by done. rewrite decide_False by done.
    by rewrite bool_decide_eq_false_2. }
  split; [done|].
  split; [intros l Hl; simpl; by apply lookup_alter_ne|].
  split; [|split].
  - exists (default VUndef (first_defined (heap s) lp n)).
    rewrite !Get_data by done. simpl.
    rewrite (lookup_chain_step _ o _ q n Hac' Ho' Hn eq_refl).
    rewrite (lookup_chain_resolve _ n _ _ Hlp).
    rewrite (lookup_chain_resolve _ n _ _ Hlp').
    by rewrite (first_defined_agree _ _ _ _ Hsame).
  - intros Hdata Hacc. unfold Get. simpl.
    rewrite (lookup_chain_resolve _ "__proto__" _ _ Hchain).
    change (String.eqb "__proto__" "__proto__") with true. cbv iota.
    rewrite (inherits_accessor_chain _ _ _ Hchain).
    rewrite (inherits_accessor_chain _ _ _ Hlp) in Hacc.
    injection Hacc as Hacc.
    cbn [chain_accessor]. rewrite Ho'. simpl. rewrite Hdata.
    rewrite decide_False by done.
    by rewrite (chain_accessor_agree _ _ _ Hsame), Hacc.
  - unfold Object_setPrototypeOf. simpl. fold h'. rewrite Ho'. simpl.
    by rewrite decide_True.
Qed.

(** Lines 383-408, just before the link of line 408: [paidUserFunctions]
    has no [increment] yet, and has the one of [userFunctions] after. *)
Lemma accepted_link_witness :
  let s := final_state (run (userFunctions ← Subclassing2.userFunctions_literal;
                             Subclassing2.paidUserFunctions_literal)) in
  let userFunctions := 3%positive in
  let paidUserFunctions := 4%positive in
  Get paidUserFunctions "increment" s = Ok VUndef s
  ∧ ∃ s', Object_setPrototypeOf paidUserFunctions (Some userFunctions) s
          = Ok (VObj paidUserFunctions) s'
          ∧ Get paidUserFunctions "increment" s' = Ok (VFun increment) s'
          ∧ Get paidUserFunctions "__proto__" s' = Ok (VObj userFunctions) s'.
Proof.
  split; [vm_compute; reflexivity|].
  destruct (accepted_link_takes_effect
              (final_state (run (userFunctions ← Subclassing2.userFunctions_literal;
                                 Subclassing2.paidUserFunctions_literal)))
              4%positive 3%positive
              (Obj {[ "increaseBalance" := VFun increaseBalance ]}
                   (Some object_prototype))
              [3%positive; object_prototype] "increment")
    as (s' & Hrun & _ & _ & (v & Hq & Ho) & Hacc & _).
  - apply (bool_decide_unpack _). vm_compute. exact I.
  - vm_compute. reflexivity.
  - discriminate.
  - discriminate.
  - vm_compute. reflexivity.
  - apply (bool_decide_unpack _). vm_compute. exact I.
  - discriminate.
  - vm_compute. reflexivity.
  - exists s'. split; [exact Hrun|]. split.
    + rewrite Ho. f_equal. vm_compute in Hq. by injection Hq as <-.
    + apply Hacc; vm_compute; reflexivity.
Defined.

(** ** The plain inner function, called again and again *)

Lemma invoke_n_plain_NaN s e k :
  lookup_chain (heap s) e "increment" = Some (VFun increment_add1_plain) →
  own_prop s global_object "score" = Some (VNum NaN) →
  invoke_n e "increment" k s = Ok tt s.
Proof.
  intros Hres Hown. induction k as [|k IH]; [done|].
  cbn [invoke_n].
  rewrite bind_unfold, (call_method_resolved _ _ "increment" increment_add1_plain)
    by done.
  rewrite Call_add1_plain_is_global.
  rewrite (Call_this_counter _ _ add1_plain "score" NaN eq_refl Hown). cbn [add1].
  by rewrite (with_field_same _ _ _ _ Hown).
Qed.

(** X9.  However often [e.increment()] is called with the [increment] of
    lines 267-272, [e] never counts: on a global object that has no [score],
    one call or more leave the state with [score = NaN] stored on the global
    object, and with every other object, [e] included, exactly as it was. *)
Theorem plain_inner_function_never_counts (s : state) (e : loc) (k : nat) :
  lookup_chain (heap s) e "increment" = Some (VFun increment_add1_plain) →
  is_Some (heap s !! global_object) →
  lookup_chain (heap s) global_object "score" = Some VUndef →
  e ≠ global_object →
  ∃ s',
    invoke_n e "increment" (S k) s = Ok tt s'
    ∧ only_field_changed s s' global_object "score" (VNum NaN)
    ∧ heap s' !! e = heap s !! e.
Proof.
  intros Hres Hg Hmiss Hne.
  exists (with_field s global_object "score" (VNum NaN)).
  split; [|split; [by apply with_field_only | by apply with_field_other]].
  cbn [invoke_n].
  rewrite bind_unfold, (call_method_resolved _ _ "increment" increment_add1_plain)
    by done.
  rewrite Call_add1_plain_is_global.
  rewrite (counting_reads_through _ _ add1_plain "score" VUndef NaN
             eq_refl Hg Hmiss eq_refl).
  cbn [add1]. apply invoke_n_plain_NaN.
  - by rewrite lookup_chain_with_field.
  - by apply own_prop_with_field_eq.
Qed.

(** Lines 262-278, then [user1.increment()] three times. *)
Lemma plain_inner_function_witness :
  let s := final_state (run (p ← InnerFunction.UserCreator_prototype_plain;
                             InnerFunction.new_UserCreator p
                               (VStr "Eva") (VNum (Int 9)))) in
  let user1 := 4%positive in
  own_prop s user1 "score" = Some (VNum (Int 9))
  ∧ ∃ s', invoke_n user1 "increment" 3 s = Ok tt s'
          ∧ own_prop s' global_object "score" = Some (VNum NaN)
          ∧ own_prop s' user1 "score" = Some (VNum (Int 9)).
Proof.
  split; [vm_compute; reflexivity|].
  destruct (plain_inner_function_never_counts
              (final_state (run (p ← InnerFunction.UserCreator_prototype_plain;
                                 InnerFunction.new_UserCreator p
                                   (VStr "Eva") (VNum (Int 9)))))
              4%positive 2) as (s' & Hrun & (Hown & _) & Hsame).
  - vm_compute. reflexivity.
  - vm_compute. eauto.
  - vm_compute. reflexivity.
  - discriminate.
  - exists s'. split; [exact Hrun|]. split; [exact Hown|].
    unfold own_prop. rewrite Hsame. vm_compute. reflexivity.
Defined.

(** ** What a base user does not get *)

(** X10.  The extension goes one way: a base user, made by [userCreator]
    (lines 377-382) or by [new userCreator] (lines 439-451) and linked to an
    object on whose chain [increaseBalance] is not stored, cannot be asked to
    [increaseBalance]: the call throws the "not a function" TypeError and
    changes nothing, whatever paid objects exist beside it. *)
Theorem base_users_do_not_get_paid_operations
    (s : state) (B : loc) (name score : value) :
  acyclic (heap s) →
  is_Some (heap s !! B) →
  lookup_chain (heap s) B "increaseBalance" = Some VUndef →
  (∃ s1, Subclassing2.userCreator B name score s = Ok (next_loc s) s1
         ∧ call_method (next_loc s) "increaseBalance" s1
           = Throw (TypeError (NotAFunction "increaseBalance")) s1)
  ∧ (∃ s1, Subclassing3.new_userCreator B name score s = Ok (next_loc s) s1
           ∧ call_method (next_loc s) "increaseBalance" s1
             = Throw (TypeError (NotAFunction "increaseBalance")) s1).
Proof.
  intros Hac HB Hmiss.
  assert (Hgen : ∀ s1,
    s1 = with_new s (Obj (<[ "score" := score ]> (<[ "name" := name ]> ∅)) (Some B)) →
    call_method (next_loc s) "increaseBalance" s1
    = Throw (TypeError (NotAFunction "increaseBalance")) s1).
  { intros s1 ->. unfold call_method. rewrite bind_unfold, Get_data by done.
    rewrite linked_user_lookup by done. by rewrite Hmiss. }
  split; eexists; (split; [|by apply Hgen]).
  - apply Subclassing2_userCreator_run.
  - apply Subclassing3_new_userCreator_run.
Qed.

(** After line 467, with the paid prototype and a paid user in place: one
    more base user. *)
Lemma base_users_witness :
  let s := final_state (run Subclassing3.upto_467) in
  let userCreator_prototype := 3%positive in
  acyclic (heap s)
  ∧ ∃ s1, Subclassing3.new_userCreator userCreator_prototype
            (VStr "Tim") (VNum (Int 4)) s = Ok (next_loc s) s1
          ∧ call_method (next_loc s) "increaseBalance" s1
            = Throw (TypeError (NotAFunction "increaseBalance")) s1.
Proof.
  assert (Hac : acyclic (heap (final_state (run Subclassing3.upto_467)))).
  { apply (bool_decide_unpack _). vm_compute. exact I. }
  split; [exact Hac|].
  refine (proj2 (base_users_do_not_get_paid_operations _ 3%positive
                   (VStr "Tim") (VNum (Int 4)) Hac _ _)).
  - vm_compute. eauto.
  - vm_compute. reflexivity.
Defined.

(** ** [hasOwnProperty] *)

Example DefaultLink_main_run :
  returned (run DefaultLink.main) = Some (VNum (Int 3), true).
Proof. vm_compute. reflexivity. Qed.

Lemma call_hasOwnProperty_builtin s e o key :
  lookup_chain (heap s) e "hasOwnProperty"
    = Some (VFun (native "hasOwnProperty")) →
  heap s !! e = Some o →
  e ≠ object_prototype →
  DefaultLink.call_hasOwnProperty e key s
  = Ok (bool_decide (is_Some (props o !! key))) s.
Proof.
  intros Hres He Hne. unfold DefaultLink.call_hasOwnProperty.
  rewrite bind_unfold, (Get_resolved _ _ "hasOwnProperty" _ ltac:(done) Hres).
  cbv beta iota.
  change (String.eqb "hasOwnProperty" "hasOwnProperty") with true.
  cbv beta iota. rewrite He. f_equal. apply bool_decide_ext. tauto.
Qed.

Lemma user_fields_only (name score : value) (key : string) :
  is_Some ((<[ "score" := score ]> (<[ "name" := name ]> (∅ : gmap string value)))
             !! key)
  ↔ key = "name" ∨ key = "score".
Proof.
  rewrite lookup_insert_is_Some, lookup_insert_is_Some, lookup_empty.
  split.
  - intros [<-|[_ [<-|[_ []%is_Some_None]]]]; auto.
  - intros [->| ->]; [right; split; [done|by left] | by left].
Qed.

(** X11.  For every user made by the factory of lines 154-159, linked to a
    store on whose chain [hasOwnProperty] is the built-in of
    [Object.prototype], [user.hasOwnProperty(key)] is true for [name] and
    [score] and false for every other key: in particular false for
    [increment], which the user can nevertheless call, since it is found on
    the store. *)
Theorem hasOwnProperty_sees_the_fields_only
    (s : state) (store : loc) (ob : obj) (name score : value) (key : string) :
  acyclic (heap s) →
  heap s !! store = Some ob →
  props ob !! "increment" = Some (VFun increment) →
  lookup_chain (heap s) store "hasOwnProperty"
    = Some (VFun (native "hasOwnProperty")) →
  ∃ s1, Solution2.userCreator store name score s = Ok (next_loc s) s1
        ∧ DefaultLink.call_hasOwnProperty (next_loc s) key s1
          = Ok (bool_decide (key = "name" ∨ key = "score")) s1
        ∧ DefaultLink.call_hasOwnProperty (next_loc s) "increment" s1 = Ok false s1
        ∧ lookup_chain (heap s1) (next_loc s) "increment" = Some (VFun increment).
Proof.
  intros Hac Hstore Hinc Hhas.
  eexists. split; [apply Solution2_userCreator_run|].
  set (ps := <[ "score" := score ]> (<[ "name" := name ]> ∅)).
  set (s1 := with_new s (Obj ps (Some store))).
  assert (Hres : lookup_chain (heap s1) (next_loc s) "hasOwnProperty"
                 = Some (VFun (native "hasOwnProperty"))).
  { unfold s1. rewrite linked_user_lookup; eauto. }
  assert (Hu : heap s1 !! next_loc s = Some (Obj ps (Some store)))
    by apply with_new_lookup_new.
  pose proof (proj1 (next_loc_realm s)) as Hrealm.
  split; [|split].
  - rewrite (call_hasOwnProperty_builtin _ _ _ key Hres Hu Hrealm). f_equal.
    apply bool_decide_ext, user_fields_only.
  - by rewrite (call_hasOwnProperty_builtin _ _ _ "increment" Hres Hu Hrealm).
  - by eapply linked_user_resolves.
Qed.

(** After line 168: a user of [userFunctionStore] asked for [score] and for
    [login]. *)
Lemma hasOwnProperty_witness :
  let s := final_state (run Solution2.userFunctionStore) in
  let store := 3%positive in
  acyclic (heap s)
  ∧ ∃ s1, Solution2.userCreator store (VStr "Phil") (VNum (Int 4)) s
          = Ok (next_loc s) s1
          ∧ DefaultLink.call_hasOwnProperty (next_loc s) "login" s1
            = Ok false s1.
Proof.
  assert (Hac : acyclic (heap (final_state (run Solution2.userFunctionStore)))).
  { apply (bool_decide_unpack _). vm_compute. exact I. }
  split; [exact Hac|].
  destruct (hasOwnProperty_sees_the_fields_only _ 3%positive
              (Obj {[ "increment" := VFun increment;
                      "login" := VFun (login "You are logged!") ]}
                   (Some object_prototype))
              (VStr "Phil") (VNum (Int 4)) "login" Hac)
    as (s1 & Hmk & Hkey & _); [vm_compute; reflexivity..|].
  exists s1. split; [exact Hmk|]. exact Hkey.
Defined.

(** X12.  The user of lines 63-68, made with [Object.create(null)], has no
    link at all: from any state, every name other than its three own
    properties reads as [undefined], so none of the built-ins every other
    object of the script gets from [Object.prototype] is there, and
    [user3.hasOwnProperty(key)] and [user3.toString()] throw the "not a
    function" TypeError, leaving the state as it was. *)
Theorem null_prototype_user_has_no_builtins (s : state) (n key : string) :
  ∃ s1,
    Encapsulation.user3 s = Ok (next_loc s) s1
    ∧ proto_of s1 (next_loc s) = Some None
    ∧ Get (next_loc s) n s1
      = Ok (if bool_decide (n = "name") then VStr "Eva"
            else if bool_decide (n = "score") then VNum (Int 9)
            else if bool_decide (n = "increment")
                 then VFun (increment_closure (next_loc s))
            else VUndef) s1
    ∧ DefaultLink.call_hasOwnProperty (next_loc s) key s1
      = Throw (TypeError (NotAFunction "hasOwnProperty")) s1
    ∧ call_method (next_loc s) "toString" s1
      = Throw (TypeError (NotAFunction "toString")) s1.
Proof.
  eexists. split; [apply Encapsulation_user3_run|].
  set (ps := <[ "increment" := _ ]> _). set (s1 := with_new s (Obj ps None)).
  assert (Hu : heap s1 !! next_loc s = Some (Obj ps None))
    by apply with_new_lookup_new.
  assert (Hget : ∀ m, lookup_chain (heap s1) (next_loc s) m
                      = Some (default VUndef (ps !! m))).
  { intros m. unfold lookup_chain. cbn [get_fuel]. rewrite Hu. simpl.
    by destruct (ps !! m). }
  assert (Hacc : inherits_accessor (heap s1) (next_loc s) = Some false).
  { unfold inherits_accessor. cbn [accessor_fuel]. rewrite Hu. simpl.
    replace (ps !! "__proto__") with (@None value)
      by (unfold ps; by rewrite !lookup_insert_ne, lookup_empty by done).
    by rewrite decide_False by apply next_loc_realm. }
  split; [unfold proto_of; by rewrite Hu|].
  split.
  - unfold Get. rewrite Hget, Hacc.
    replace (if String.eqb n "__proto__"
             then Ok (default VUndef (ps !! n)) s1
             else Ok (default VUndef (ps !! n)) s1)
      with (Ok (default VUndef (ps !! n)) s1 : result value)
      by by destruct (String.eqb n "__proto__").
    f_equal. unfold ps.
    repeat case_bool_decide; subst; try done.
    by rewrite !lookup_insert_ne, lookup_empty by done.
  - split.
    + unfold DefaultLink.call_hasOwnProperty.
      rewrite bind_unfold, Get_data by done. by rewrite Hget.
    + unfold call_method. rewrite bind_unfold, Get_data by done.
      by rewrite Hget.
Qed.

(** ** Assignment *)



(** ** A method without its receiver *)

(** X14.  Called with no receiver ([c.increment.call(undefined)]), the
    [increment] of the class (lines 319-321, strict) throws the TypeError
    for a property of [undefined] and changes nothing, while the [increment]
    of the earlier solutions (lines 162-164, 235-237) does not fail: it
    counts on the global object, which, having no [score], now stores NaN
    under that name; nothing else changes. *)
Theorem increment_without_receiver (s : state) (c u : loc) :
  lookup_chain (heap s) c "increment" = Some (VFun increment_class) →
  lookup_chain (heap s) u "increment" = Some (VFun increment) →
  is_Some (heap s !! global_object) →
  lookup_chain (heap s) global_object "score" = Some VUndef →
  Function_call c "increment" VUndef s = Throw (TypeError UndefinedReceiver) s
  ∧ ∃ s', Function_call u "increment" VUndef s = Ok VUndef s'
          ∧ only_field_changed s s' global_object "score" (VNum NaN).
Proof.
  intros Hc Hu Hg Hmiss. split.
  - by rewrite (Function_call_resolved _ _ "increment" increment_class).
  - exists (with_field s global_object "score" (VNum NaN)).
    split; [|by apply with_field_only].
    rewrite (Function_call_resolved _ _ "increment" increment) by done.
    change (Call increment VUndef s) with (Call increment (VObj global_object) s).
    by apply (counting_reads_through _ _ increment "score" VUndef NaN).
Qed.

(** A user of the class of lines 314-325 and a user of the constructor of
    lines 230-241, side by side. *)
Lemma increment_without_receiver_witness :
  let s := final_state (run (p4 ← Solution4.UserCreator_prototype;
                             Solution4.new_UserCreator p4 (VStr "Eva") (VNum (Int 9));;
                             p3 ← Solution3.userCreator_prototype;
                             Solution3.new_userCreator p3
                               (VStr "Eva") (VNum (Int 9)))) in
  let class_user := 4%positive in
  let function_user := 6%positive in
  Function_call class_user "increment" VUndef s
  = Throw (TypeError UndefinedReceiver) s
  ∧ ∃ s', Function_call function_user "increment" VUndef s = Ok VUndef s'
          ∧ own_prop s' global_object "score" = Some (VNum NaN)
          ∧ own_prop s' function_user "score" = Some (VNum (Int 9)).
Proof.
  destruct (increment_without_receiver
              (final_state (run (p4 ← Solution4.UserCreator_prototype;
                                 Solution4.new_UserCreator p4
                                   (VStr "Eva") (VNum (Int 9));;
                                 p3 ← Solution3.userCreator_prototype;
                                 Solution3.new_userCreator p3
                                   (VStr "Eva") (VNum (Int 9)))))
              4%positive 6%positive)
    as (Hstrict & s' & Hcall & Hown & Hothers & _).
  - vm_compute. reflexivity.
  - vm_compute. reflexivity.
  - vm_compute. eauto.
  - vm_compute. reflexivity.
  - split; [exact Hstrict|]. exists s'.
    split; [exact Hcall|]. split; [exact Hown|].
    unfold own_prop. rewrite Hothers by discriminate. vm_compute. reflexivity.
Defined.

(** ** The paid constructor reuses the base one *)

(** X15.  [new paidUserCreator(name, score, balance)] (lines 455-459, 467)
    is, for every prototype, arguments and state, [new userCreator(name,
    score)] on that prototype followed by the assignment of
    [accountBalance]: the paid constructor initialises the base fields
    through the base constructor and adds one field. *)
Theorem paid_constructor_is_base_constructor_plus_balance
    (s : state) (prototype : loc) (name score balance : value) :
  Subclassing3.new_paidUserCreator prototype name score balance s
  = (u ← Subclassing3.new_userCreator prototype name score;
     Put u "accountBalance" balance;;
     mret u) s.
Proof.
  rewrite Subclassing3_new_paidUserCreator_run.
  rewrite bind_unfold, Subclassing3_new_userCreator_run. cbv beta iota.
  by mstep.
Qed.

(** ** The accessor [__proto__] *)

(** X16.  A user made by the factory of lines 154-159 from a store that
    inherits the accessor of [Object.prototype] reads its store as
    [user.__proto__]; assigning a string or a number to [user.__proto__] is
    ignored, leaving the state and the link as they were; and assigning an
    object is the request [Object.setPrototypeOf(user, object)]. *)
Theorem proto_accessor_of_a_new_user
    (s : state) (store : loc) (name score : value) (w : string) (x : number) :
  acyclic (heap s) →
  is_Some (heap s !! store) →
  inherits_accessor (heap s) store = Some true →
  ∃ s1,
    Solution2.userCreator store name score s = Ok (next_loc s) s1
    ∧ Get (next_loc s) "__proto__" s1 = Ok (VObj store) s1
    ∧ Put (next_loc s) "__proto__" (VStr w) s1 = Ok tt s1
    ∧ Put (next_loc s) "__proto__" (VNum x) s1 = Ok tt s1
    ∧ own_prop s1 (next_loc s) "__proto__" = None
    ∧ (∀ q, is_Some (heap s1 !! q) →
         Put (next_loc s) "__proto__" (VObj q) s1
         = (Object_setPrototypeOf (next_loc s) (Some q);; mret tt) s1).
Proof.
  intros Hac Hstore Hacc.
  eexists. split; [apply Solution2_userCreator_run|].
  set (ps := <[ "score" := score ]> (<[ "name" := name ]> ∅)).
  set (u := next_loc s). set (s1 := with_new s (Obj ps (Some store))).
  destruct (acyclic_chain _ store Hac Hstore) as [ls Hls].
  assert (Hu : heap s1 !! u = Some (Obj ps (Some store)))
    by apply with_new_lookup_new.
  assert (Hls1 : chain_of (heap s1) (Some store) ls) by by apply chain_of_with_new.
  assert (Hchain : chain_of (heap s1) (Some u) (u :: ls)) by by econstructor.
  assert (Hps : ps !! "__proto__" = None).
  { unfold ps. by rewrite !lookup_insert_ne, lookup_empty by done. }
  assert (Hacc1 : inherits_accessor (heap s1) u = Some true).
  { rewrite (inherits_accessor_chain _ _ _ Hchain).
    rewrite (inherits_accessor_chain _ _ _ Hls) in Hacc. injection Hacc as Hacc.
    cbn [chain_accessor]. rewrite Hu. simpl. rewrite Hps.
    rewrite decide_False by apply next_loc_realm.
    rewrite (chain_accessor_agree (heap s)), Hacc; [done|].
    intros l Hl. apply with_new_lookup_old. by eapply chain_of_allocated. }
  split.
  { unfold Get. rewrite (lookup_chain_resolve _ "__proto__" _ _ Hchain).
    change (String.eqb "__proto__" "__proto__") with true. cbv iota.
    by rewrite Hacc1, Hu. }
  assert (Hput : ∀ v, Put u "__proto__" v s1 = set_proto_accessor u v s1).
  { intros v. unfold Put.
    change (String.eqb "__proto__" "__proto__") with true. cbv iota.
    by rewrite Hacc1. }
  split; [by rewrite Hput|]. split; [by rewrite Hput|].
  split; [unfold s1, u; by rewrite own_prop_with_new|].
  intros q [oq Hq]. rewrite Hput. cbn [set_proto_accessor]. by rewrite Hq.
Qed.

(** After line 168: [user1 = userCreator('Phil', 4)], then
    [user1.__proto__ = 'Julia'] and [user1.__proto__]. *)
Lemma proto_accessor_witness :
  let s := final_state (run Solution2.userFunctionStore) in
  let store := 3%positive in
  acyclic (heap s)
  ∧ ∃ s1, Solution2.userCreator store (VStr "Phil") (VNum (Int 4)) s
          = Ok (next_loc s) s1
          ∧ (Put (next_loc s) "__proto__" (VStr "Julia");;
             Get (next_loc s) "__proto__") s1 = Ok (VObj store) s1.
Proof.
  assert (Hac : acyclic (heap (final_state (run Solution2.userFunctionStore)))).
  { apply (bool_decide_unpack _). vm_compute. exact I. }
  split; [exact Hac|].
  destruct (proto_accessor_of_a_new_user _ 3%positive
              (VStr "Phil") (VNum (Int 4)) "Julia" NaN Hac)
    as (s1 & Hmk & Hget & Hput & _).
  - vm_compute. eauto.
  - vm_compute. reflexivity.
  - exists s1. split; [exact Hmk|]. by rewrite bind_unfold, Hput.
Defined.
